(** * Verification of the cs-fantasy scoring engine, lifecycle and parsers

    Shallow embedding of the Python sources under [src/fantasy]:
    - [fantasy/utils/scoring_engine.py]   (module [Engine])
    - [fantasy/utils/scoring_schema.py]   (module [Schema])
    - [fantasy/models/bracket.py]         (module [BracketCfg])
    - [fantasy/models/core.py]            (modules [Scores], [Advance])
    - [fantasy/tasks/module_finalization.py] (module [Populate])
    - [fantasy/services/hltv_parser.py]   (module [Leaderboard]) *)

From Stdlib Require Import List String Ascii ZArith Bool Lia.
From Stdlib Require Import DecimalString Sorted Permutation.
Import ListNotations.
Open Scope string_scope.
Open Scope list_scope.
Set Warnings "-register-all".


(** ** Python values and exceptions *)
Module Py.

(** The exceptions the modelled code can raise. *)
Inductive exn : Type :=
| KeyError
| AttributeError
| TypeError
| MultipleObjectsReturned
| RecursionError.

(** A computation that returns a value or raises. *)
Inductive res (A : Type) : Type :=
| Ok (a : A)
| Raise (e : exn).
Arguments Ok {A} a.
Arguments Raise {A} e.

Definition bind {A B} (m : res A) (k : A -> res B) : res B :=
  match m with
  | Ok a => k a
  | Raise e => Raise e
  end.

Notation "x <- m ;; k" := (bind m (fun x => k))
  (at level 61, m at next level, right associativity).

(** Python objects as the engine sees them: [None], booleans, integers,
    strings, lists, dicts (string keys, insertion order) and
    attribute-bearing objects (an identity and their attributes, e.g. a
    Django model instance).  Floats are not modelled. *)
Inductive value : Type :=
| VNone
| VBool (b : bool)
| VInt (z : Z)
| VStr (s : string)
| VList (l : list value)
| VDict (kv : list (string * value))
| VObj (oid : nat) (attrs : list (string * value)).

Fixpoint lookup {A} (k : string) (kv : list (string * A)) : option A :=
  match kv with
  | [] => None
  | (k', v) :: kv' => if String.eqb k k' then Some v else lookup k kv'
  end.

(** [bool] is a subclass of [int]. *)
Definition as_num (v : value) : option Z :=
  match v with
  | VBool b => Some (if b then 1%Z else 0%Z)
  | VInt z => Some z
  | _ => None
  end.

Definition is_none (v : value) : bool :=
  match v with VNone => true | _ => false end.

Definition is_list (v : value) : bool :=
  match v with VList _ => true | _ => false end.

(** Truthiness ([bool(v)]). *)
Definition truthy (v : value) : bool :=
  match v with
  | VNone => false
  | VBool b => b
  | VInt z => negb (Z.eqb z 0)
  | VStr s => negb (String.eqb s "")
  | VList l => match l with [] => false | _ => true end
  | VDict kv => match kv with [] => false | _ => true end
  | VObj _ _ => true
  end.

(** [==]: numbers compare numerically (so [True == 1]), lists
    elementwise, dicts as mappings, objects by identity. *)
Fixpoint py_eq (a b : value) {struct a} : bool :=
  match a, b with
  | VNone, VNone => true
  | (VBool _ | VInt _), (VBool _ | VInt _) =>
      match as_num a, as_num b with
      | Some x, Some y => Z.eqb x y
      | _, _ => false
      end
  | VStr s, VStr t => String.eqb s t
  | VList xs, VList ys =>
      (fix go (xs ys : list value) : bool :=
         match xs, ys with
         | [], [] => true
         | x :: xs', y :: ys' => py_eq x y && go xs' ys'
         | _, _ => false
         end) xs ys
  | VDict d1, VDict d2 =>
      Nat.eqb (List.length d1) (List.length d2) &&
      (fix go (d : list (string * value)) : bool :=
         match d with
         | [] => true
         | (k, v) :: d' =>
             match lookup k d2 with
             | Some v' => py_eq v v'
             | None => false
             end && go d'
         end) d1
  | VObj i _, VObj j _ => Nat.eqb i j
  | _, _ => false
  end.

(** Hashable values ([set(...)], [x in some_set]). *)
Definition hashable (v : value) : bool :=
  match v with VList _ | VDict _ => false | _ => true end.

(** [d.get(k, default)]: only dicts have [.get]. *)
Definition get (d : value) (k : string) (default : value) : res value :=
  match d with
  | VDict kv => Ok (match lookup k kv with Some v => v | None => default end)
  | _ => Raise AttributeError
  end.

(** [d[k]] with a string key. *)
Definition getitem (d : value) (k : string) : res value :=
  match d with
  | VDict kv => match lookup k kv with Some v => Ok v | None => Raise KeyError end
  | _ => Raise TypeError
  end.

(** [k in d] for a dict. *)
Definition has_key (k : string) (kv : list (string * value)) : bool :=
  match lookup k kv with Some _ => true | None => false end.

(** The attribute names of the builtin types' instances, as CPython
    3.11's [dir()] lists them: [dir(None)], [dir(0)] (which equals
    [dir(True)]), [dir("")], [dir([])] and [dir({})]. *)

Definition NONE_ATTRS : list string :=
  ["__bool__"; "__class__"; "__delattr__"; "__dir__"; "__doc__"; "__eq__";
   "__format__"; "__ge__"; "__getattribute__"; "__getstate__"; "__gt__";
   "__hash__"; "__init__"; "__init_subclass__"; "__le__"; "__lt__";
   "__ne__"; "__new__"; "__reduce__"; "__reduce_ex__"; "__repr__";
   "__setattr__"; "__sizeof__"; "__str__"; "__subclasshook__"].

Definition INT_ATTRS : list string :=
  ["__abs__"; "__add__"; "__and__"; "__bool__"; "__ceil__"; "__class__";
   "__delattr__"; "__dir__"; "__divmod__"; "__doc__"; "__eq__";
   "__float__"; "__floor__"; "__floordiv__"; "__format__"; "__ge__";
   "__getattribute__"; "__getnewargs__"; "__getstate__"; "__gt__";
   "__hash__"; "__index__"; "__init__"; "__init_subclass__"; "__int__";
   "__invert__"; "__le__"; "__lshift__"; "__lt__"; "__mod__"; "__mul__";
   "__ne__"; "__neg__"; "__new__"; "__or__"; "__pos__"; "__pow__";
   "__radd__"; "__rand__"; "__rdivmod__"; "__reduce__"; "__reduce_ex__";
   "__repr__"; "__rfloordiv__"; "__rlshift__"; "__rmod__"; "__rmul__";
   "__ror__"; "__round__"; "__rpow__"; "__rrshift__"; "__rshift__";
   "__rsub__"; "__rtruediv__"; "__rxor__"; "__setattr__"; "__sizeof__";
   "__str__"; "__sub__"; "__subclasshook__"; "__truediv__"; "__trunc__";
   "__xor__"; "as_integer_ratio"; "bit_count"; "bit_length"; "conjugate";
   "denominator"; "from_bytes"; "imag"; "numerator"; "real"; "to_bytes"].

Definition STR_ATTRS : list string :=
  ["__add__"; "__class__"; "__contains__"; "__delattr__"; "__dir__";
   "__doc__"; "__eq__"; "__format__"; "__ge__"; "__getattribute__";
   "__getitem__"; "__getnewargs__"; "__getstate__"; "__gt__"; "__hash__";
   "__init__"; "__init_subclass__"; "__iter__"; "__le__"; "__len__";
   "__lt__"; "__mod__"; "__mul__"; "__ne__"; "__new__"; "__reduce__";
   "__reduce_ex__"; "__repr__"; "__rmod__"; "__rmul__"; "__setattr__";
   "__sizeof__"; "__str__"; "__subclasshook__"; "capitalize"; "casefold";
   "center"; "count"; "encode"; "endswith"; "expandtabs"; "find"; "format";
   "format_map"; "index"; "isalnum"; "isalpha"; "isascii"; "isdecimal";
   "isdigit"; "isidentifier"; "islower"; "isnumeric"; "isprintable";
   "isspace"; "istitle"; "isupper"; "join"; "ljust"; "lower"; "lstrip";
   "maketrans"; "partition"; "removeprefix"; "removesuffix"; "replace";
   "rfind"; "rindex"; "rjust"; "rpartition"; "rsplit"; "rstrip"; "split";
   "splitlines"; "startswith"; "strip"; "swapcase"; "title"; "translate";
   "upper"; "zfill"].

Definition LIST_ATTRS : list string :=
  ["__add__"; "__class__"; "__class_getitem__"; "__contains__";
   "__delattr__"; "__delitem__"; "__dir__"; "__doc__"; "__eq__";
   "__format__"; "__ge__"; "__getattribute__"; "__getitem__";
   "__getstate__"; "__gt__"; "__hash__"; "__iadd__"; "__imul__";
   "__init__"; "__init_subclass__"; "__iter__"; "__le__"; "__len__";
   "__lt__"; "__mul__"; "__ne__"; "__new__"; "__reduce__"; "__reduce_ex__";
   "__repr__"; "__reversed__"; "__rmul__"; "__setattr__"; "__setitem__";
   "__sizeof__"; "__str__"; "__subclasshook__"; "append"; "clear"; "copy";
   "count"; "extend"; "index"; "insert"; "pop"; "remove"; "reverse"; "sort"].

Definition DICT_ATTRS : list string :=
  ["__class__"; "__class_getitem__"; "__contains__"; "__delattr__";
   "__delitem__"; "__dir__"; "__doc__"; "__eq__"; "__format__"; "__ge__";
   "__getattribute__"; "__getitem__"; "__getstate__"; "__gt__"; "__hash__";
   "__init__"; "__init_subclass__"; "__ior__"; "__iter__"; "__le__";
   "__len__"; "__lt__"; "__ne__"; "__new__"; "__or__"; "__reduce__";
   "__reduce_ex__"; "__repr__"; "__reversed__"; "__ror__"; "__setattr__";
   "__setitem__"; "__sizeof__"; "__str__"; "__subclasshook__"; "clear";
   "copy"; "fromkeys"; "get"; "items"; "keys"; "pop"; "popitem";
   "setdefault"; "update"; "values"].

Definition builtin_attrs (v : value) : list string :=
  match v with
  | VNone => NONE_ATTRS
  | VBool _ | VInt _ => INT_ATTRS
  | VStr _ => STR_ATTRS
  | VList _ => LIST_ATTRS
  | VDict _ => DICT_ATTRS
  | VObj _ _ => []
  end.

(** What a builtin attribute other than the numeric data ones evaluates
    to: a bound method, a type ([__class__]), a docstring ([__doc__]),
    ...  It is an object that is not [None]; its own attributes and its
    identity are not modelled (the id 0 is kept for it). *)
Definition builtin_attr_object : value := VObj 0 [].

(** [getattr(obj, name)].  A modelled object carries the attributes
    listed with it.  A builtin value has the attributes of its type: the
    numeric data attributes of [int] and [bool] ([real], [imag],
    [numerator], [denominator]) give their integer values,
    [None.__doc__] is [None], and every other name of the type's table
    gives [builtin_attr_object]; a name outside the table raises
    [AttributeError]. *)
Definition getattr (obj : value) (name : string) : res value :=
  match obj with
  | VObj _ attrs =>
      match lookup name attrs with Some v => Ok v | None => Raise AttributeError end
  | _ =>
      if existsb (String.eqb name) (builtin_attrs obj) then
        Ok (match as_num obj with
            | Some z =>
                if String.eqb name "real" || String.eqb name "numerator" then VInt z
                else if String.eqb name "imag" then VInt 0
                else if String.eqb name "denominator" then VInt 1
                else builtin_attr_object
            | None =>
                if is_none obj && String.eqb name "__doc__" then VNone
                else builtin_attr_object
            end)
      else Raise AttributeError
  end.

(** [any(f(x) for x in xs)] where [f] may raise. *)
Fixpoint any_r {A} (f : A -> res bool) (xs : list A) : res bool :=
  match xs with
  | [] => Ok false
  | x :: xs' => b <- f x ;; if b then Ok true else any_r f xs'
  end.

(** [all(f(x) for x in xs)] where [f] may raise. *)
Fixpoint all_r {A} (f : A -> res bool) (xs : list A) : res bool :=
  match xs with
  | [] => Ok true
  | x :: xs' => b <- f x ;; if b then all_r f xs' else Ok false
  end.

(** [sum(xs)]: starts from [0] and adds; a non-number raises. *)
Fixpoint py_sum (xs : list value) : res Z :=
  match xs with
  | [] => Ok 0%Z
  | x :: xs' =>
      match as_num x with
      | Some z => t <- py_sum xs' ;; Ok (z + t)%Z
      | None => Raise TypeError
      end
  end.

(** [str.split(".")] *)
Fixpoint split_dot_aux (s cur : string) : list string :=
  match s with
  | EmptyString => [cur]
  | String c s' =>
      if Ascii.eqb c "."%char then cur :: split_dot_aux s' ""
      else split_dot_aux s' (String.append cur (String c EmptyString))
  end.

Definition split_dot (s : string) : list string := split_dot_aux s "".

End Py.

(** ** The rule engine ([fantasy/utils/scoring_engine.py]) *)
Module Engine.
Import Py.

(** One step of the [functools.reduce] in [resolve_path]:
    [acc.get(key) if isinstance(acc, dict) else getattr(acc, key)]. *)
Definition path_step (acc : value) (key : string) : res value :=
  match acc with
  | VDict kv => Ok (match lookup key kv with Some v => v | None => VNone end)
  | _ => getattr acc key
  end.

Fixpoint reduce_path (acc : value) (keys : list string) : res value :=
  match keys with
  | [] => Ok acc
  | k :: ks => v <- path_step acc k ;; reduce_path v ks
  end.

(** [resolve_path(obj, path)]: [AttributeError] and [KeyError] are caught
    and turned into [None]; a [path] that is not a string has no
    [.split], which raises [AttributeError] inside the [try]. *)
Definition resolve_path (obj path : value) : res value :=
  match path with
  | VStr p =>
      match reduce_path obj (split_dot p) with
      | Ok v => Ok v
      | Raise AttributeError => Ok VNone
      | Raise KeyError => Ok VNone
      | Raise e => Raise e
      end
  | _ => Ok VNone
  end.

(** [{"prediction": prediction, "result": result}] *)
Definition context (p r : value) : value :=
  VDict [("prediction", p); ("result", r)].

Definition eval_condition_eq (condition p r : value) : res bool :=
  let ctx := context p r in
  s <- getitem condition "source" ;; source_val <- resolve_path ctx s ;;
  t <- getitem condition "target" ;; target_val <- resolve_path ctx t ;;
  Ok (negb (is_none source_val) && py_eq source_val target_val).

Definition eval_condition_always_true (condition p r : value) : res bool :=
  Ok true.

Definition eval_condition_in_list (condition p r : value) : res bool :=
  let ctx := context p r in
  s <- getitem condition "source" ;; source_val <- resolve_path ctx s ;;
  t <- getitem condition "target_list" ;; target_list <- resolve_path ctx t ;;
  match target_list with
  | VList items =>
      if is_none source_val then Ok false
      else
        key <- get condition "list_item_key" VNone ;;
        if truthy key then
          any_r (fun item => iv <- resolve_path item key ;; Ok (py_eq iv source_val)) items
        else Ok (existsb (fun item => py_eq item source_val) items)
  | _ => Ok false
  end.

(** [position <= top_x] for an integer [position]. *)
Definition py_le_num (pos : Z) (top_x : value) : res bool :=
  match as_num top_x with
  | Some t => Ok (Z.leb pos t)
  | None => Raise TypeError
  end.

(** The [for item in target_list] loop of [_eval_condition_in_list_within_top_x]. *)
Fixpoint top_x_scan (source_val key pkey top_x : value) (items : list value) : res bool :=
  match items with
  | [] => Ok false
  | item :: items' =>
      item_val <- resolve_path item key ;;
      if py_eq item_val source_val then
        position <- resolve_path item pkey ;;
        match as_num position with
        | Some z => py_le_num z top_x
        | None => Ok false
        end
      else top_x_scan source_val key pkey top_x items'
  end.

Definition eval_condition_in_list_within_top_x (condition p r : value) : res bool :=
  let ctx := context p r in
  s <- getitem condition "source" ;; source_val <- resolve_path ctx s ;;
  t <- getitem condition "target_list" ;; target_list <- resolve_path ctx t ;;
  list_item_key <- get condition "list_item_key" VNone ;;
  position_key <- get condition "position_key" VNone ;;
  top_x <- get condition "top_x" VNone ;;
  if is_none source_val || negb (is_list target_list)
     || negb (truthy list_item_key && truthy position_key && negb (is_none top_x))
  then Ok false
  else match target_list with
       | VList items => top_x_scan source_val list_item_key position_key top_x items
       | _ => Ok false
       end.

(** [if hasattr(l, "all"): l = list(l.all())].  A Django related manager
    is represented by an object whose [all] attribute holds the list that
    [.all()] returns. *)
Definition manager_all (v : value) : res value :=
  match v with
  | VObj _ attrs =>
      match lookup "all" attrs with
      | Some (VList l) => Ok (VList l)
      | Some _ => Raise TypeError
      | None => Ok v
      end
  | _ => Ok v
  end.

(** [bool(set(list1) & set(list2))]; building a set of unhashable
    elements raises. *)
Definition eval_condition_list_intersects (condition p r : value) : res bool :=
  let ctx := context p r in
  s <- getitem condition "source_list" ;; list1 <- resolve_path ctx s ;;
  t <- getitem condition "target_list" ;; list2 <- resolve_path ctx t ;;
  list1 <- manager_all list1 ;; list2 <- manager_all list2 ;;
  match list1, list2 with
  | VList xs, VList ys =>
      if forallb hashable xs then
        if forallb hashable ys then
          Ok (existsb (fun x => existsb (fun y => py_eq x y) ys) xs)
        else Raise TypeError
      else Raise TypeError
  | _, _ => Ok false
  end.

(** The keys of [CONDITION_OPERATORS]. *)
Inductive cond_op : Type :=
| OpEq | OpAlwaysTrue | OpInList | OpInListWithinTopX | OpListIntersects | OpAnd.

Definition CONDITION_OPERATORS : list (string * cond_op) :=
  [("eq", OpEq); ("always_true", OpAlwaysTrue); ("in_list", OpInList);
   ("in_list_within_top_x", OpInListWithinTopX);
   ("list_intersects", OpListIntersects); ("and", OpAnd)].

(** [table.get(key)] with an arbitrary key: an unhashable key raises. *)
Definition op_get {A} (table : list (string * A)) (key : value) : res (option A) :=
  match key with
  | VStr k => Ok (lookup k table)
  | VList _ | VDict _ => Raise TypeError
  | _ => Ok None
  end.

(** Size of a value; it bounds the nesting of [and] conditions. *)
Fixpoint value_size (v : value) : nat :=
  match v with
  | VList l =>
      S ((fix go (l : list value) : nat :=
            match l with [] => 0 | x :: l' => value_size x + go l' end) l)
  | VDict kv | VObj _ kv =>
      S ((fix go (kv : list (string * value)) : nat :=
            match kv with [] => 0 | (_, x) :: kv' => value_size x + go kv' end) kv)
  | _ => 1
  end.

(** [eval_condition] together with [_eval_condition_and], which calls it
    back.  The fuel is the size of the condition, so it never runs out
    (Python's own recursion limit is not modelled). *)
Fixpoint eval_condition_f (fuel : nat) (condition p r : value) : res bool :=
  match fuel with
  | O => Raise RecursionError
  | S fuel' =>
      operator <- get condition "operator" VNone ;;
      f <- op_get CONDITION_OPERATORS operator ;;
      match f with
      | Some OpEq => eval_condition_eq condition p r
      | Some OpAlwaysTrue => eval_condition_always_true condition p r
      | Some OpInList => eval_condition_in_list condition p r
      | Some OpInListWithinTopX => eval_condition_in_list_within_top_x condition p r
      | Some OpListIntersects => eval_condition_list_intersects condition p r
      | Some OpAnd =>
          conditions <- get condition "conditions" (VList []) ;;
          if negb (truthy conditions) then Ok false
          else match conditions with
               | VList cs => all_r (fun c => eval_condition_f fuel' c p r) cs
               (* iterating a dict or a string yields strings, which have no [.get] *)
               | VDict _ | VStr _ => Raise AttributeError
               | _ => Raise TypeError
               end
      | None => Ok false
      end
  end.

Definition eval_condition (condition p r : value) : res bool :=
  eval_condition_f (value_size condition) condition p r.

Definition eval_scoring_fixed (scoring p r : value) : res value :=
  get scoring "value" (VInt 0).

(** [len(v)] *)
Definition py_len (v : value) : res nat :=
  match v with
  | VList l => Ok (List.length l)
  | VStr s => Ok (String.length s)
  | VDict kv => Ok (List.length kv)
  | _ => Raise TypeError
  end.

(** [v[i]] for an index [i] already checked to be below [len(v)]; dict
    keys are strings, so an integer key is missing. *)
Definition py_index (v : value) (i : nat) : res value :=
  match v with
  | VList l => Ok (nth i l VNone)
  | VStr s => Ok (VStr (substring i 1 s))
  | VDict _ => Raise KeyError
  | _ => Raise TypeError
  end.

(** The [for index, item in enumerate(target_list)] loop of
    [_eval_scoring_map_points]. *)
Fixpoint map_points_scan (source_value key scores : value) (index : nat)
    (items : list value) : res value :=
  match items with
  | [] => Ok (VInt 0)
  | item :: items' =>
      item_value <- resolve_path item key ;;
      if py_eq item_value source_value then
        n <- py_len scores ;;
        if Nat.ltb index n then py_index scores index else Ok (VInt 0)
      else map_points_scan source_value key scores (S index) items'
  end.

Definition eval_scoring_map_points (scoring p r : value) : res value :=
  let ctx := context p r in
  sp <- get scoring "source_value" VNone ;; source_value <- resolve_path ctx sp ;;
  tp <- get scoring "target_list" VNone ;; target_list <- resolve_path ctx tp ;;
  list_item_key <- get scoring "list_item_key" VNone ;;
  scores <- get scoring "scores" (VList []) ;;
  if is_none source_value || negb (is_list target_list) || negb (truthy list_item_key)
  then Ok (VInt 0)
  else match target_list with
       | VList items => map_points_scan source_value list_item_key scores 0 items
       | _ => Ok (VInt 0)
       end.

Fixpoint repeat_string (n : nat) (s : string) : string :=
  match n with O => "" | S n' => String.append s (repeat_string n' s) end.

(** [k * points_per_unit] for an integer [k] (sequences repeat). *)
Definition py_mul_int (k : Z) (v : value) : res value :=
  match v with
  | VBool _ | VInt _ =>
      match as_num v with Some z => Ok (VInt (k * z)) | None => Raise TypeError end
  | VStr s => Ok (VStr (repeat_string (Z.to_nat k) s))
  | VList l => Ok (VList (List.concat (List.repeat l (Z.to_nat k))))
  | _ => Raise TypeError
  end.

(** [(abs(val1 - val2) // unit) * points_per_unit]; [Z.div] rounds down
    like Python's [//]. *)
Definition eval_scoring_scaled_difference (scoring p r : value) : res value :=
  let ctx := context p r in
  s1 <- getitem scoring "source1" ;; val1 <- resolve_path ctx s1 ;;
  s2 <- getitem scoring "source2" ;; val2 <- resolve_path ctx s2 ;;
  unit <- get scoring "unit" VNone ;;
  points_per_unit <- get scoring "points_per_unit" VNone ;;
  if existsb is_none [val1; val2; unit; points_per_unit] || py_eq unit (VInt 0)
  then Ok (VInt 0)
  else match as_num val1, as_num val2 with
       | Some a, Some b =>
           match as_num unit with
           | Some u => py_mul_int (Z.abs (a - b) / u) points_per_unit
           | None => Raise TypeError
           end
       | _, _ => Ok (VInt 0)
       end.

Inductive scor_op : Type := OpFixed | OpMapPoints | OpScaledDifference.

Definition SCORING_OPERATORS : list (string * scor_op) :=
  [("fixed", OpFixed); ("map_points", OpMapPoints);
   ("scaled_difference", OpScaledDifference)].

Definition eval_scoring (scoring p r : value) : res value :=
  operator <- get scoring "operator" VNone ;;
  f <- op_get SCORING_OPERATORS operator ;;
  match f with
  | Some OpFixed => eval_scoring_fixed scoring p r
  | Some OpMapPoints => eval_scoring_map_points scoring p r
  | Some OpScaledDifference => eval_scoring_scaled_difference scoring p r
  | None => Ok (VInt 0)
  end.

Record ScoreBreakdownItem : Type := {
  prediction_pk : value;
  rule_id : value;
  points : value;
  description : value
}.

Record EvaluationResult : Type := {
  total_score : Z;
  breakdown : list ScoreBreakdownItem
}.

(** The body of the [for rule in rules] loop of [evaluate_rules]:
    [None] when the rule does not match, otherwise its score, its
    breakdown item and the truthiness of [rule.get("exclusive", False)].
    A rule that is not a dict raises [TypeError] in this body ([in] or
    subscripting a non-dict). *)
Definition eval_rule (rule p r : value) :
    res (option (value * ScoreBreakdownItem * bool)) :=
  match rule with
  | VDict kv =>
      is_match <- (if has_key "condition" kv
                   then c <- getitem rule "condition" ;; eval_condition c p r
                   else Ok true) ;;
      if is_match then
        sc <- getitem rule "scoring" ;;
        score <- eval_scoring sc p r ;;
        pk <- getattr p "pk" ;;
        rid <- get rule "id" (VStr "untitled_rule") ;;
        desc <- get rule "description" (VStr "Points awarded for matching rule.") ;;
        excl <- get rule "exclusive" (VBool false) ;;
        Ok (Some (score, {| prediction_pk := pk; rule_id := rid;
                            points := score; description := desc |}, truthy excl))
      else Ok None
  | _ => Raise TypeError
  end.

(** The loop, with the [scores] and [breakdown_items] accumulators. *)
Fixpoint evaluate_loop (rules : list value) (p r : value)
    (scores : list value) (items : list ScoreBreakdownItem)
    : res (list value * list ScoreBreakdownItem) :=
  match rules with
  | [] => Ok (scores, items)
  | rule :: rest =>
      o <- eval_rule rule p r ;;
      match o with
      | None => evaluate_loop rest p r scores items
      | Some (score, item, excl) =>
          if excl then Ok (scores ++ [score], items ++ [item])
          else evaluate_loop rest p r (scores ++ [score]) (items ++ [item])
      end
  end.

Definition evaluate_rules_h (rules : list value) (p r : value) (handler : string)
    : res EvaluationResult :=
  acc <- evaluate_loop rules p r [] [] ;;
  let '(scores, items) := acc in
  total <- (if String.eqb handler "sum" then py_sum scores else Ok 0%Z) ;;
  Ok {| total_score := total; breakdown := items |}.

(** [evaluate_rules(rules, prediction_obj, result_obj)] with the default
    [handler="sum"]. *)
Definition evaluate_rules (rules : list value) (p r : value) : res EvaluationResult :=
  evaluate_rules_h rules p r "sum".

End Engine.

(** ** Default bracket scoring ([fantasy/models/bracket.py]) *)
Module BracketCfg.
Import Py Engine.

Definition eq_cond (source target : string) : value :=
  VDict [("operator", VStr "eq"); ("source", VStr source); ("target", VStr target)].

Definition and_cond (conditions : list value) : value :=
  VDict [("operator", VStr "and"); ("conditions", VList conditions)].

Definition fixed_rule (id desc : string) (condition : value) (v : Z) (excl : bool) : value :=
  VDict [("id", VStr id); ("description", VStr desc); ("condition", condition);
         ("scoring", VDict [("operator", VStr "fixed"); ("value", VInt v)]);
         ("exclusive", VBool excl)].

Definition winner_eq := eq_cond "prediction.predicted_winner_id" "result.winner_id".
Definition loser_eq := eq_cond "prediction.predicted_loser_id" "result.loser_id".
Definition score_a_eq := eq_cond "prediction.predicted_team_a_score" "result.team_a_score".
Definition score_b_eq := eq_cond "prediction.predicted_team_b_score" "result.team_b_score".

Definition final_tag_cond : value :=
  VDict [("operator", VStr "list_contains_literal"); ("source_value", VStr "final");
         ("target_list", VStr "result.tags")].

Definition teams_set_equal_cond : value :=
  VDict [("operator", VStr "set_equal");
         ("source_list", VList [VStr "prediction.team_a_id"; VStr "prediction.team_b_id"]);
         ("target_list", VList [VStr "result.team_a_id"; VStr "result.team_b_id"])].

Definition winner_score_teams_cond : value :=
  and_cond [winner_eq; score_a_eq; score_b_eq; teams_set_equal_cond].

Definition winner_score_cond : value := and_cond [winner_eq; score_a_eq; score_b_eq].

Definition default_rules : list value :=
  [fixed_rule "correct_final_winner_bonus" "Bonus for correctly predicting the final winner."
     (and_cond [winner_eq; final_tag_cond]) 1 false;
   fixed_rule "correct_winner_score_and_teams" "Correct winner, score, and teams (order-independent)."
     winner_score_teams_cond 3 true;
   fixed_rule "correct_winner_and_score" "Correct winner and score, but wrong teams."
     winner_score_cond 2 true;
   fixed_rule "correct_loser_and_score" "Correct loser and score, but wrong teams."
     (and_cond [loser_eq; score_a_eq; score_b_eq]) 2 true;
   fixed_rule "correct_winner" "Correct winner, but wrong teams and/or score."
     winner_eq 1 true;
   fixed_rule "correct_loser" "Correct loser, but wrong teams and/or score."
     loser_eq 1 true].

Definition get_default_bracket_scoring_config : value :=
  VDict [("rules", VList default_rules)].

(** [UserMatchPrediction.predicted_loser] / [BracketMatch.loser]: the team
    of the pair that is not the winner, [None] when an id is missing. *)
Definition loser_of (winner team_a team_b : option nat) : option nat :=
  match winner, team_a, team_b with
  | Some w, Some a, Some b => if Nat.eqb w a then Some b else Some a
  | _, _, _ => None
  end.

Definition opt_id (o : option nat) : value :=
  match o with Some n => VInt (Z.of_nat n) | None => VNone end.

Definition opt_int (o : option Z) : value :=
  match o with Some z => VInt z | None => VNone end.

(** A [UserMatchPrediction] as [Bracket.calculate_scores] hands it to the
    engine, with the synthesized [predicted_loser_id]. *)
Definition match_prediction (oid : nat) (team_a team_b winner : option nat)
    (score_a score_b : option Z) : value :=
  VObj oid [("pk", VInt (Z.of_nat oid)); ("team_a_id", opt_id team_a);
            ("team_b_id", opt_id team_b); ("predicted_winner_id", opt_id winner);
            ("predicted_team_a_score", opt_int score_a);
            ("predicted_team_b_score", opt_int score_b);
            ("predicted_loser_id", opt_id (loser_of winner team_a team_b))].

(** A [BracketMatch] result with the synthesized [loser_id]. *)
Definition bracket_match (oid : nat) (team_a team_b winner : option nat)
    (score_a score_b : option Z) (tags : list value) : value :=
  VObj oid [("pk", VInt (Z.of_nat oid)); ("team_a_id", opt_id team_a);
            ("team_b_id", opt_id team_b); ("winner_id", opt_id winner);
            ("team_a_score", opt_int score_a); ("team_b_score", opt_int score_b);
            ("tags", VList tags); ("loser_id", opt_id (loser_of winner team_a team_b))].

End BracketCfg.

(** ** Rule-set validation ([fantasy/utils/scoring_schema.py]) *)
Module Schema.
Import Py.

Record ValidationError : Type := {
  path : string;
  message : string
}.

Definition err (p m : string) : ValidationError := {| path := p; message := m |}.

Definition CONDITION_OPERATORS : list string :=
  ["eq"; "and"; "in_list"; "in_list_within_top_x"; "list_intersects";
   "always_true"; "list_contains_literal"; "set_equal"].

Definition SCORING_OPERATORS : list string := ["fixed"; "map_points"; "scaled_difference"].

Definition CONDITION_REQUIRED_FIELDS : list (string * list string) :=
  [("eq", ["source"; "target"]);
   ("and", ["conditions"]);
   ("in_list", ["source"; "target_list"; "list_item_key"]);
   ("in_list_within_top_x", ["source"; "target_list"; "list_item_key"; "position_key"; "top_x"]);
   ("list_intersects", ["source_list"; "target_list"]);
   ("always_true", []);
   ("list_contains_literal", ["source_value"; "target_list"]);
   ("set_equal", ["source_list"; "target_list"])].

Definition SCORING_REQUIRED_FIELDS : list (string * list string) :=
  [("fixed", ["value"]);
   ("map_points", ["source_value"; "target_list"; "list_item_key"; "scores"]);
   ("scaled_difference", ["source1"; "source2"; "unit"; "points_per_unit"])].

(** [operator in some_set_of_strings]: an unhashable operator raises. *)
Definition set_mem (names : list string) (v : value) : res bool :=
  match v with
  | VStr s => Ok (existsb (String.eqb s) names)
  | VList _ | VDict _ => Raise TypeError
  | _ => Ok false
  end.

(** [required = TABLE.get(operator, [])] for a known (string) operator. *)
Definition required_fields (table : list (string * list string)) (operator : value)
    : list string :=
  match operator with
  | VStr s => match lookup s table with Some l => l | None => [] end
  | _ => []
  end.

(** [str(v)] inside an f-string; only the cases the messages need are
    spelled out. *)
Definition show_nat (n : nat) : string := NilEmpty.string_of_uint (Nat.to_uint n).

Definition py_str (v : value) : string :=
  match v with
  | VNone => "None"
  | VBool b => if b then "True" else "False"
  | VInt z => if Z.ltb z 0 then String.append "-" (show_nat (Z.to_nat (Z.opp z)))
              else show_nat (Z.to_nat z)
  | VStr s => s
  | _ => "<object>"
  end.

(** [f"{path}.{field}"] *)
Definition sub (p field : string) : string := (p ++ "." ++ field)%string.

(** [f"{path}[{i}]"] *)
Definition at_index (p : string) (i : nat) : string := (p ++ "[" ++ show_nat i ++ "]")%string.

(** One error per absent required field, in the order of [required]. *)
Definition missing_field_errors (kv : list (string * value)) (p : string)
    (operator : value) (required : list string) : list ValidationError :=
  map (fun f => err (sub p f) ("Operator '" ++ py_str operator ++ "' requires field '" ++ f ++ "'"))
      (filter (fun f => negb (has_key f kv)) required).

(** [_validate_condition], including its recursion through the
    [conditions] of an [and]; the fuel is the size of the condition, so
    it never runs out.  The returned list is what the call appends to
    [self.errors], in order.  The set in the unknown-operator message is
    printed in declaration order (Python's set order is not fixed). *)
Fixpoint validate_condition_f (fuel : nat) (condition : value) (p : string)
    : res (list ValidationError) :=
  match fuel with
  | O => Raise RecursionError
  | S fuel' =>
      match condition with
      | VDict kv =>
          match lookup "operator" kv with
          | None => Ok [err (sub p "operator") "Condition must have an 'operator'"]
          | Some operator =>
              known <- set_mem CONDITION_OPERATORS operator ;;
              if negb known then
                Ok [err (sub p "operator")
                      ("Unknown operator '" ++ py_str operator ++ "'. Valid: {eq, and, in_list, in_list_within_top_x, list_intersects, always_true, list_contains_literal, set_equal}")]
              else
                let missing := missing_field_errors kv p operator
                                 (required_fields CONDITION_REQUIRED_FIELDS operator) in
                nested <- (match operator, lookup "conditions" kv with
                           | VStr "and", Some (VList cs) =>
                               (fix go (cs : list value) (i : nat) : res (list ValidationError) :=
                                  match cs with
                                  | [] => Ok []
                                  | c :: cs' =>
                                      e <- validate_condition_f fuel' c (at_index (sub p "conditions") i) ;;
                                      rest <- go cs' (S i) ;;
                                      Ok (e ++ rest)
                                  end) cs 0
                           | VStr "and", Some _ =>
                               Ok [err (sub p "conditions") "conditions must be an array"]
                           | _, _ => Ok []
                           end) ;;
                Ok (missing ++ nested)
          end
      | _ => Ok [err p "Condition must be a dictionary"]
      end
  end.

Definition validate_condition (condition : value) (p : string) : res (list ValidationError) :=
  validate_condition_f (Engine.value_size condition) condition p.

Definition validate_scoring (scoring : value) (p : string) : res (list ValidationError) :=
  match scoring with
  | VDict kv =>
      match lookup "operator" kv with
      | None => Ok [err (sub p "operator") "Scoring must have an 'operator'"]
      | Some operator =>
          known <- set_mem SCORING_OPERATORS operator ;;
          if negb known then
            Ok [err (sub p "operator")
                  ("Unknown operator '" ++ py_str operator ++ "'. Valid: {fixed, map_points, scaled_difference}")]
          else Ok (missing_field_errors kv p operator
                     (required_fields SCORING_REQUIRED_FIELDS operator))
      end
  | _ => Ok [err p "Scoring must be a dictionary"]
  end.

Definition is_bool (v : value) : bool := match v with VBool _ => true | _ => false end.

Definition validate_rule (rule : value) (p : string) : res (list ValidationError) :=
  match rule with
  | VDict kv =>
      let e_id := if has_key "id" kv then [] else [err (sub p "id") "Rule must have an 'id'"] in
      e_cond <- (match lookup "condition" kv with
                 | Some c => validate_condition c (sub p "condition")
                 | None => Ok [err (sub p "condition") "Rule must have a 'condition'"]
                 end) ;;
      e_scor <- (match lookup "scoring" kv with
                 | Some s => validate_scoring s (sub p "scoring")
                 | None => Ok [err (sub p "scoring") "Rule must have a 'scoring'"]
                 end) ;;
      let e_excl := match lookup "exclusive" kv with
                    | Some v => if is_bool v then []
                                else [err (sub p "exclusive") "exclusive must be boolean"]
                    | None => []
                    end in
      Ok (e_id ++ e_cond ++ e_scor ++ e_excl)
  | _ => Ok [err p "Rule must be a dictionary"]
  end.

(** [for i, rule in enumerate(rules): self._validate_rule(rule, f"rules[{i}]")] *)
Fixpoint validate_rules (rules : list value) (i : nat) : res (list ValidationError) :=
  match rules with
  | [] => Ok []
  | rule :: rules' =>
      e <- validate_rule rule (at_index "rules" i) ;;
      rest <- validate_rules rules' (S i) ;;
      Ok (e ++ rest)
  end.

(** [validate_scoring_config(config)]: [(is_valid, errors)]. *)
Definition validate (config : value) : res (bool * list ValidationError) :=
  match config with
  | VDict kv =>
      match lookup "rules" kv with
      | None => Ok (false, [err "" "Config must have 'rules' array"])
      | Some (VList rules) =>
          errors <- validate_rules rules 0 ;;
          Ok (Nat.eqb (List.length errors) 0, errors)
      | Some _ => Ok (false, [err "rules" "Rules must be an array"])
      end
  | _ => Ok (false, [err "" "Config must be a dictionary"])
  end.

End Schema.

(** ** Module scores ([BaseModule.calculate_scores] / [update_scores]) *)
Module Scores.
Import Py Engine.

(** A module as [calculate_scores] reads it: the rules of its
    [scoring_config], its predictions (with their user) and its results. *)
Record ModuleData : Type := {
  module_pk : nat;
  tournament_pk : nat;
  rules : list value;
  predictions : list (nat * value);
  results : list value
}.

(** One [UserModuleScore] row (timestamps left out). *)
Record ScoreRow : Type := {
  row_user : nat;
  row_module : nat;
  row_tournament : nat;
  row_points : Z;
  row_breakdown : list ScoreBreakdownItem;
  row_is_final : bool
}.

Section Calculate.
(** The per-type hooks [_get_results_map] and [_get_prediction_key]. *)
Variable get_results_map : list value -> list (nat * value).
Variable get_prediction_key : value -> nat.

Fixpoint lookup_nat {A} (k : nat) (kv : list (nat * A)) : option A :=
  match kv with
  | [] => None
  | (k', v) :: kv' => if Nat.eqb k k' then Some v else lookup_nat k kv'
  end.

(** [scores_by_user[user]["total_score"] += t] and [["breakdown"].extend(b)]
    on the [defaultdict], which keeps first-insertion order. *)
Fixpoint add_user_score (u : nat) (t : Z) (b : list ScoreBreakdownItem)
    (acc : list (nat * (Z * list ScoreBreakdownItem)))
    : list (nat * (Z * list ScoreBreakdownItem)) :=
  match acc with
  | [] => [(u, (0 + t, [] ++ b))%Z]
  | (u', (t', b')) :: acc' =>
      if Nat.eqb u u' then (u', (t' + t, b' ++ b))%Z :: acc'
      else (u', (t', b')) :: add_user_score u t b acc'
  end.

Fixpoint calculate_loop (rs : list value) (results_map : list (nat * value))
    (preds : list (nat * value)) (acc : list (nat * (Z * list ScoreBreakdownItem)))
    : res (list (nat * (Z * list ScoreBreakdownItem))) :=
  match preds with
  | [] => Ok acc
  | (u, prediction) :: preds' =>
      match lookup_nat (get_prediction_key prediction) results_map with
      | Some result =>
          if truthy result then
            ev <- evaluate_rules rs prediction result ;;
            calculate_loop rs results_map preds'
              (add_user_score u (total_score ev) (breakdown ev) acc)
          else calculate_loop rs results_map preds' acc
      | None => calculate_loop rs results_map preds' acc
      end
  end.

Definition calculate_scores (md : ModuleData)
    : res (list (nat * (Z * list ScoreBreakdownItem))) :=
  let results_map := get_results_map (results md) in
  match rules md with
  | [] => Ok []
  | rs => calculate_loop rs results_map (predictions md) []
  end.

Definition key_match (u m t : nat) (row : ScoreRow) : bool :=
  Nat.eqb (row_user row) u && Nat.eqb (row_module row) m && Nat.eqb (row_tournament row) t.

(** [ScoreModel.objects.update_or_create(user=u, module=m, tournament=t,
    defaults={"points": pts, "score_breakdown": bd})] on the table [store]. *)
Definition update_or_create (store : list ScoreRow) (u m t : nat) (pts : Z)
    (bd : list ScoreBreakdownItem) : res (list ScoreRow) :=
  match filter (key_match u m t) store with
  | [] => Ok (store ++ [{| row_user := u; row_module := m; row_tournament := t;
                           row_points := pts; row_breakdown := bd; row_is_final := false |}])
  | [_] => Ok (map (fun row => if key_match u m t row
                              then {| row_user := row_user row; row_module := row_module row;
                                      row_tournament := row_tournament row; row_points := pts;
                                      row_breakdown := bd; row_is_final := row_is_final row |}
                              else row) store)
  | _ => Raise MultipleObjectsReturned
  end.

Fixpoint upsert_all (m t : nat) (data : list (nat * (Z * list ScoreBreakdownItem)))
    (store : list ScoreRow) (count : nat) : res (list ScoreRow * nat) :=
  match data with
  | [] => Ok (store, count)
  | (u, (pts, bd)) :: data' =>
      store' <- update_or_create store u m t pts bd ;;
      upsert_all m t data' store' (S count)
  end.

(** [update_scores()]: the new table and [updated_count].  The score
    notification that follows is best effort and its failures are
    swallowed; it does not touch the table. *)
Definition update_scores (md : ModuleData) (store : list ScoreRow)
    : res (list ScoreRow * nat) :=
  scores_data <- calculate_scores md ;;
  upsert_all (module_pk md) (tournament_pk md) scores_data store 0.

End Calculate.
End Scores.

(** ** Stage advancement ([BaseModule.save] / [_check_stage_advancement]) *)
Module Advance.

Record ModuleRec : Type := {
  m_id : nat;
  m_stage : nat;
  m_blocking : bool;
  m_completed : bool
}.

Record StageRec : Type := {
  s_id : nat;
  s_active : bool;
  s_completed : bool;
  s_next : option nat
}.

(** The store: modules, stages, and the [populate_stage_modules(stage_id)]
    tasks handed to [async_task], oldest first. *)
Record State : Type := {
  modules : list ModuleRec;
  stages : list StageRec;
  populate_tasks : list nat
}.

Definition find_module (id : nat) (ms : list ModuleRec) : option ModuleRec :=
  find (fun m => Nat.eqb (m_id m) id) ms.

Definition find_stage (id : nat) (ss : list StageRec) : option StageRec :=
  find (fun s => Nat.eqb (s_id s) id) ss.

Definition put_stage (s : StageRec) (st : State) : State :=
  {| modules := modules st;
     stages := map (fun s' => if Nat.eqb (s_id s') (s_id s) then s else s') (stages st);
     populate_tasks := populate_tasks st |}.

Definition with_completed (s : StageRec) : StageRec :=
  {| s_id := s_id s; s_active := s_active s; s_completed := true; s_next := s_next s |}.

Definition with_active (s : StageRec) : StageRec :=
  {| s_id := s_id s; s_active := true; s_completed := s_completed s; s_next := s_next s |}.

(** [BaseModule.objects.filter(stage=stage, blocking_advancement=True)] *)
Definition blocking_modules (stage : nat) (ms : list ModuleRec) : list ModuleRec :=
  filter (fun m => Nat.eqb (m_stage m) stage && m_blocking m) ms.

Definition check_stage_advancement (self : ModuleRec) (st : State) : State :=
  match find_stage (m_stage self) (stages st) with
  | None => st
  | Some stage =>
      if negb (forallb m_completed (blocking_modules (s_id stage) (modules st))) then st
      else
        let st1 := if s_completed stage then st else put_stage (with_completed stage) st in
        match s_next stage with
        | None => st1
        | Some nid =>
            match find_stage nid (stages st1) with
            | None => st1
            | Some next_stage =>
                let st2 := if s_active next_stage then st1
                           else put_stage (with_active next_stage) st1 in
                {| modules := modules st2; stages := stages st2;
                   populate_tasks := populate_tasks st2 ++ [nid] |}
            end
        end
  end.

(** [super().save()] of the module row. *)
Definition write_module (self : ModuleRec) (ms : list ModuleRec) : list ModuleRec :=
  match find_module (m_id self) ms with
  | Some _ => map (fun m => if Nat.eqb (m_id m) (m_id self) then self else m) ms
  | None => ms ++ [self]
  end.

(** [BaseModule.save()] as far as stage advancement goes: the check runs
    when the stored row was not completed and the saved one is.  (Slug,
    finalization scheduling and reminders do not touch this state.) *)
Definition save_module (self : ModuleRec) (st : State) : State :=
  let check := match find_module (m_id self) (modules st) with
               | Some old => negb (m_completed old) && m_completed self
               | None => false
               end in
  let st' := {| modules := write_module self (modules st); stages := stages st;
                populate_tasks := populate_tasks st |} in
  if check then check_stage_advancement self st' else st'.

End Advance.

(** ** Population retries ([fantasy/tasks/module_finalization.py]) *)
Module Populate.

Definition POPULATION_RETRY_DELAYS : list Z := [60; 120; 240; 360; 720; 1440]%Z.

(** What a population handler returned ([result.get("status")]). *)
Inductive handler_status : Type := Success | Incomplete | OtherStatus.

(** A django-q [Schedule] row created by [_schedule_population_retry]. *)
Record Schedule : Type := {
  sched_func : string;
  sched_stage : nat;
  sched_attempt : nat;
  sched_name : string;
  sched_next_run : Z
}.

Inductive PopulateResult : Type :=
| RetryScheduled (stage_id : nat) (incomplete_modules : list string)
    (next_attempt : nat) (delay_minutes : Z)
| PopulateError (reason : string) (incomplete_modules : list string)
| PopulateSuccess (stage_id : nat) (modules_populated : nat).

Definition schedule_population_retry (now : Z) (stage_id attempt : nat) (delay : Z)
    (schedules : list Schedule) : list Schedule :=
  schedules ++ [{| sched_func := "fantasy.tasks.populate_stage_modules";
                   sched_stage := stage_id; sched_attempt := attempt;
                   sched_name := ("populate_stage_" ++ Schema.show_nat stage_id ++ "_retry_"
                                  ++ Schema.show_nat attempt)%string;
                   sched_next_run := (now + delay)%Z |}].

(** The module loop: [(populated_count, incomplete_modules)].  Each module
    is its name and what its handler returned ([None]: no handler). *)
Fixpoint run_handlers (mods : list (string * option handler_status)) : nat * list string :=
  match mods with
  | [] => (0, [])
  | (name, h) :: mods' =>
      let '(n, inc) := run_handlers mods' in
      match h with
      | Some Success => (S n, inc)
      | Some Incomplete => (n, name :: inc)
      | _ => (n, inc)
      end
  end.

(** [populate_stage_modules(stage_id, attempt)] once the stage is loaded:
    [source_url] is [stage.hltv_url or stage.tournament.hltv_url]; the
    fetch and parse are assumed to succeed; [now] is [timezone.now()] in
    minutes. *)
Definition populate_stage_modules (now : Z) (stage : option (option string))
    (stage_id attempt : nat) (mods : list (string * option handler_status))
    (schedules : list Schedule) : PopulateResult * list Schedule :=
  match stage with
  | None => (PopulateError "stage_not_found" [], schedules)
  | Some None => (PopulateError "missing_url" [], schedules)
  | Some (Some _) =>
      let '(populated, incomplete) := run_handlers mods in
      match incomplete with
      | [] => (PopulateSuccess stage_id populated, schedules)
      | _ =>
          if Nat.ltb attempt (List.length POPULATION_RETRY_DELAYS) then
            let delay := nth attempt POPULATION_RETRY_DELAYS 0%Z in
            (RetryScheduled stage_id incomplete (attempt + 2) delay,
             schedule_population_retry now stage_id (attempt + 1) delay schedules)
          else (PopulateError "max_retries_exceeded" incomplete, schedules)
      end
  end.

End Populate.

(** ** Leaderboard positions ([parse_leaderboard]) *)
Module Leaderboard.

(** A parsed [div.leader] entry.  Values are the parsed ratings, kept as
    integers in their smallest unit (e.g. hundredths: 1.50 is 150); only
    their order matters here. *)
Record Entry : Type := {
  hltv_id : nat;
  name : string;
  value : Z
}.

Record LeaderboardEntry : Type := {
  le_hltv_id : nat;
  le_name : string;
  le_value : Z;
  position : nat
}.

(** [entries.sort(key=value, reverse=True)]: stable, descending. *)
Fixpoint insert_desc (e : Entry) (l : list Entry) : list Entry :=
  match l with
  | [] => [e]
  | h :: t => if Z.ltb (value h) (value e) then e :: h :: t else h :: insert_desc e t
  end.

Definition sort_desc (l : list Entry) : list Entry :=
  fold_left (fun acc e => insert_desc e acc) l [].

(** The ranking loop: [current_rank] grows by one when the value drops. *)
Fixpoint rank_loop (entries : list Entry) (current_rank : nat) (previous_value : option Z)
    : list LeaderboardEntry :=
  match entries with
  | [] => []
  | e :: es =>
      let rank := match previous_value with
                  | Some pv => if Z.ltb (value e) pv then S current_rank else current_rank
                  | None => current_rank
                  end in
      {| le_hltv_id := hltv_id e; le_name := name e; le_value := value e; position := rank |}
        :: rank_loop es rank (Some (value e))
  end.

(** [parse_leaderboard] from the parsed entries on. *)
Definition parse_leaderboard (entries : list Entry) : list LeaderboardEntry :=
  rank_loop (sort_desc entries) 1 None.

End Leaderboard.

(** ** Selection, entry point, bounds and rule check ([fantasy/utils/scoring_engine.py]) *)
Module Exec.
Import Py Engine.

(** The exceptions of this part of the engine: the builtin ones, the
    [ValueError] of [max()] on an empty sequence, and the engine's own
    [ScoringEngineError] subclasses. *)
Inductive exn : Type :=
| PyError (e : Py.exn)
| ValueError
| AmbiguousRuleError
| ObjectNotFoundError
| SchemaValidationError.

Inductive xres (A : Type) : Type :=
| XOk (a : A)
| XRaise (e : exn).
Arguments XOk {A} a.
Arguments XRaise {A} e.

Definition xbind {A B} (m : xres A) (k : A -> xres B) : xres B :=
  match m with
  | XOk a => k a
  | XRaise e => XRaise e
  end.

Notation "x <~ m ;; k" := (xbind m (fun x => k))
  (at level 61, m at next level, right associativity).

Definition lift {A} (m : res A) : xres A :=
  match m with
  | Ok a => XOk a
  | Raise e => XRaise (PyError e)
  end.

(** [for x in v]: a list yields its items, a dict its keys, a string its
    characters; other values are not iterable. *)
Definition py_iter (v : value) : res (list value) :=
  match v with
  | VList l => Ok l
  | VDict kv => Ok (map (fun e => VStr (fst e)) kv)
  | VStr s => Ok (map (fun c => VStr (String c EmptyString)) (list_ascii_of_string s))
  | _ => Raise TypeError
  end.

(** [[x for x in xs if f(x)]] where [f] may raise. *)
Fixpoint filter_r {A} (f : A -> res bool) (xs : list A) : res (list A) :=
  match xs with
  | [] => Ok []
  | x :: xs' =>
      b <- f x ;;
      rest <- filter_r f xs' ;;
      Ok (if b then x :: rest else rest)
  end.

(** [_matches_where(item, where_clause)]: a non-dict clause has no
    [.items()]. *)
Definition matches_where (item where_clause : value) : res bool :=
  if negb (truthy where_clause) then Ok true
  else match where_clause with
       | VDict kv =>
           all_r (fun e => v <- resolve_path item (VStr (fst e)) ;; Ok (py_eq v (snd e))) kv
       | _ => Raise AttributeError
       end.

Definition find_objects (collection where_clause : value) : res (list value) :=
  items <- py_iter collection ;;
  filter_r (fun item => matches_where item where_clause) items.

Definition find_object (collection where_clause : value) : xres value :=
  found <~ lift (find_objects collection where_clause) ;;
  if Nat.ltb 1 (List.length found) then XRaise AmbiguousRuleError
  else match found with
       | [] => XRaise ObjectNotFoundError
       | x :: _ => XOk x
       end.

(** A dict with arbitrary hashable keys, in insertion order.  Storing
    under a key equal to a present one keeps that key and replaces its
    value. *)
Fixpoint dict_set (k v : value) (d : list (value * value)) : list (value * value) :=
  match d with
  | [] => [(k, v)]
  | (k', v') :: d' => if py_eq k' k then (k', v) :: d' else (k', v') :: dict_set k v d'
  end.

Fixpoint dict_lookup (k : value) (d : list (value * value)) : option value :=
  match d with
  | [] => None
  | (k', v) :: d' => if py_eq k' k then Some v else dict_lookup k d'
  end.

(** [d.get(k)]: an unhashable key raises. *)
Definition dict_get (d : list (value * value)) (k : value) : res value :=
  if hashable k then Ok (match dict_lookup k d with Some v => v | None => VNone end)
  else Raise TypeError.

(** [{resolve_path(item, join_on["target_key"]): item for item in target_items}] *)
Fixpoint build_target_map (join_on : value) (items : list value) (d : list (value * value))
    : res (list (value * value)) :=
  match items with
  | [] => Ok d
  | item :: items' =>
      tk <- getitem join_on "target_key" ;;
      k <- resolve_path item tk ;;
      if hashable k then build_target_map join_on items' (dict_set k item d)
      else Raise TypeError
  end.

(** [evaluate_rules(config["rules"], s, t).total_score]; the loop of
    [evaluate_rules] first iterates over the rules. *)
Definition config_total (config s t : value) : res Z :=
  rs <- getitem config "rules" ;;
  rules <- py_iter rs ;;
  result <- evaluate_rules rules s t ;;
  Ok (total_score result).

(** The [for s_item in source_items] loop of the group mode. *)
Fixpoint group_loop (config join_on : value) (target_map : list (value * value))
    (source_items : list value) (total : Z) : res Z :=
  match source_items with
  | [] => Ok total
  | s_item :: rest =>
      sk <- getitem join_on "source_key" ;;
      key_val <- resolve_path s_item sk ;;
      t_item <- dict_get target_map key_val ;;
      if truthy t_item then
        z <- config_total config s_item t_item ;;
        group_loop config join_on target_map rest (total + z)
      else group_loop config join_on target_map rest total
  end.

(** [data_context.get(conf["from"], [])]: the method is looked up before
    the argument is evaluated; the context's keys are strings. *)
Definition collection_of (data_context conf : value) : res value :=
  match data_context with
  | VDict kv =>
      from <- getitem conf "from" ;;
      o <- op_get kv from ;;
      Ok (match o with Some v => v | None => VList [] end)
  | _ => Raise AttributeError
  end.

Definition execute_scoring_config (config data_context : value) : xres Z :=
  source_conf <~ lift (getitem config "source") ;;
  target_conf <~ lift (getitem config "target") ;;
  source_collection <~ lift (collection_of data_context source_conf) ;;
  target_collection <~ lift (collection_of data_context target_conf) ;;
  join_on <~ lift (get config "join_on" VNone) ;;
  if truthy join_on then
    lift (sw <- get source_conf "where" VNone ;;
          source_items <- find_objects source_collection sw ;;
          tw <- get target_conf "where" VNone ;;
          target_items <- find_objects target_collection tw ;;
          target_map <- build_target_map join_on target_items [] ;;
          group_loop config join_on target_map source_items 0)
  else
    sw <~ lift (get source_conf "where" VNone) ;;
    source_item <~ find_object source_collection sw ;;
    tw <~ lift (get target_conf "where" VNone) ;;
    target_item <~ find_object target_collection tw ;;
    lift (config_total config source_item target_item).

(** [a > b] for builtin values: numbers numerically, strings by code
    point, lists lexicographically (the first unequal pair decides, then
    the lengths); any other pair raises. *)
Fixpoint py_gt (a b : value) {struct a} : res bool :=
  match a, b with
  | (VBool _ | VInt _), (VBool _ | VInt _) =>
      match as_num a, as_num b with
      | Some x, Some y => Ok (Z.gtb x y)
      | _, _ => Raise TypeError
      end
  | VStr s, VStr t =>
      Ok (match String.compare s t with Gt => true | _ => false end)
  | VList xs, VList ys =>
      (fix go (xs ys : list value) : res bool :=
         match xs, ys with
         | [], _ => Ok false
         | _ :: _, [] => Ok true
         | x :: xs', y :: ys' => if py_eq x y then go xs' ys' else py_gt x y
         end) xs ys
  | _, _ => Raise TypeError
  end.

(** [max()] / [min()] over the items after the first: an item replaces
    the current one when it is greater ([max]) or smaller ([min]). *)
Fixpoint max_from (cur : value) (xs : list value) : res value :=
  match xs with
  | [] => Ok cur
  | x :: xs' => b <- py_gt x cur ;; max_from (if b then x else cur) xs'
  end.

Fixpoint min_from (cur : value) (xs : list value) : res value :=
  match xs with
  | [] => Ok cur
  | x :: xs' => b <- py_gt cur x ;; min_from (if b then x else cur) xs'
  end.

Definition py_max (v : value) : xres value :=
  items <~ lift (py_iter v) ;;
  match items with
  | [] => XRaise ValueError
  | x :: xs => lift (max_from x xs)
  end.

(** [n + v] and [v + n] for an [int] [n]. *)
Definition add_int (n : Z) (v : value) : res Z :=
  match as_num v with
  | Some z => Ok (n + z)%Z
  | None => Raise TypeError
  end.

(** [(rule_max, rule_min)] of one rule. *)
Definition rule_bounds (scoring operator : value) : xres (value * value) :=
  if py_eq operator (VStr "fixed") then
    v <~ lift (get scoring "value" (VInt 0)) ;; XOk (v, VInt 0)
  else if py_eq operator (VStr "map_points") then
    scores <~ lift (get scoring "scores" (VList [])) ;;
    if truthy scores then m <~ py_max scores ;; XOk (m, VInt 0)
    else XOk (VInt 0, VInt 0)
  else XOk (VInt 0, VInt 0).

(** The [for rule in rules] loop of [get_max_and_min_scores], with
    [exclusive_maxes], [exclusive_mins] and the two sums. *)
Fixpoint bounds_loop (rules : list value) (emaxes emins : list value) (nmax nmin : Z)
    : xres (list value * list value * Z * Z) :=
  match rules with
  | [] => XOk (emaxes, emins, nmax, nmin)
  | rule :: rest =>
      scoring <~ lift (get rule "scoring" (VDict [])) ;;
      operator <~ lift (get scoring "operator" VNone) ;;
      is_exclusive <~ lift (get rule "exclusive" (VBool false)) ;;
      mm <~ rule_bounds scoring operator ;;
      let '(rule_max, rule_min) := mm in
      if truthy is_exclusive then
        bounds_loop rest (emaxes ++ [rule_max]) (emins ++ [rule_min]) nmax nmin
      else
        a <~ lift (add_int nmax rule_max) ;;
        b <~ lift (add_int nmin rule_min) ;;
        bounds_loop rest emaxes emins a b
  end.

Definition get_max_and_min_scores (rules : value) : xres (Z * Z) :=
  rl <~ lift (py_iter rules) ;;
  acc <~ bounds_loop rl [] [] 0 0 ;;
  let '(emaxes, emins, nmax, nmin) := acc in
  exclusive_max <~ (match emaxes with [] => XOk (VInt 0) | x :: xs => lift (max_from x xs) end) ;;
  exclusive_min <~ (match emins with [] => XOk (VInt 0) | x :: xs => lift (min_from x xs) end) ;;
  total_max <~ lift (add_int nmax exclusive_max) ;;
  total_min <~ lift (add_int nmin exclusive_min) ;;
  XOk (total_max, total_min).

(** [k in v] for a string [k]: list membership, substring of a string,
    key of a dict; other values are not containers. *)
Definition py_contains (v : value) (k : string) : res bool :=
  match v with
  | VList l => Ok (existsb (fun x => py_eq x (VStr k)) l)
  | VStr s => Ok (match index 0 k s with Some _ => true | None => false end)
  | VDict kv => Ok (has_key k kv)
  | _ => Raise TypeError
  end.

(** [op in TABLE] for a dict of operators. *)
Definition op_in {A} (table : list (string * A)) (op : value) : res bool :=
  o <- op_get table op ;;
  Ok (match o with Some _ => true | None => false end).

(** The engine's [validate_rule(rule)]. *)
Definition validate_rule (rule : value) : xres bool :=
  has_c <~ lift (py_contains rule "condition") ;;
  has_s <~ (if has_c then lift (py_contains rule "scoring") else XOk false) ;;
  if negb has_s then XRaise SchemaValidationError
  else
    condition <~ lift (getitem rule "condition") ;;
    scoring <~ lift (getitem rule "scoring") ;;
    cond_op_name <~ lift (get condition "operator" VNone) ;;
    scor_op_name <~ lift (get scoring "operator" VNone) ;;
    if negb (truthy cond_op_name) || negb (truthy scor_op_name) then XRaise SchemaValidationError
    else
      kc <~ lift (op_in CONDITION_OPERATORS cond_op_name) ;;
      if negb kc then XRaise SchemaValidationError
      else
        ks <~ lift (op_in SCORING_OPERATORS scor_op_name) ;;
        if negb ks then XRaise SchemaValidationError
        else XOk true.

End Exec.

(** ** Data needs of a stage ([fantasy/tasks/module_finalization.py]) *)
Module Needs.
Import Py.

Inductive population_handler : Type :=
| populate_swiss_module
| populate_bracket_module
| populate_stat_predictions_module.

Definition HANDLERS : list (string * population_handler) :=
  [("swissmodule", populate_swiss_module);
   ("bracket", populate_bracket_module);
   ("statpredictionsmodule", populate_stat_predictions_module)].

(** [HANDLERS.get(module_type)] *)
Definition get_population_handler (module_type : string) : option population_handler :=
  lookup module_type HANDLERS.

(** [needs.add(x)] on a set of strings. *)
Definition set_add (x : string) (s : list string) : list string :=
  if existsb (String.eqb x) s then s else s ++ [x].

Definition set_mem (x : string) (s : list string) : bool := existsb (String.eqb x) s.

(** One iteration of the loop of [_determine_data_needs]; a module is
    given by [module.__class__.__name__.lower()]. *)
Definition determine_step (needs : list string) (module_type : string) : list string :=
  if String.eqb module_type "swissmodule" then set_add "teams" needs
  else if String.eqb module_type "bracket" then set_add "teams" (set_add "brackets" needs)
  else if String.eqb module_type "statpredictionsmodule" then set_add "teams" (set_add "players" needs)
  else needs.

Definition determine_data_needs (module_types : list string) : list string :=
  fold_left determine_step module_types [].

Section Parse.
(** The two parsers of [hltv_parser]: [parse_teams_attending] returns a
    dict (its items here), [parse_brackets] any value. *)
Variable parse_teams_attending : string -> list (string * value).
Variable parse_brackets : string -> value.

Definition dict_get_default (kv : list (string * value)) (k : string) (default : value) : value :=
  match lookup k kv with Some v => v | None => default end.

(** [_parse_needed_data(html, data_needs)]: the keys of [parsed] in
    insertion order. *)
Definition parse_needed_data (html : string) (data_needs : list string) : list (string * value) :=
  let parsed :=
    if set_mem "teams" data_needs || set_mem "players" data_needs then
      let attending_data := parse_teams_attending html in
      [("teams", dict_get_default attending_data "teams" (VList []));
       ("players", dict_get_default attending_data "players" (VList []))]
    else [] in
  if set_mem "brackets" data_needs then parsed ++ [("brackets", parse_brackets html)]
  else parsed.

End Parse.
End Needs.

(** ** Statement vocabulary used by the theorems below *)
Module Vocab.
Import Py Engine.



(** Outcome of one rule: did it fire as an exclusive rule? *)
Definition exclusive_hit (o : option (value * ScoreBreakdownItem * bool)) : bool :=
  match o with Some (_, _, true) => true | _ => false end.

(** The breakdown items contributed by a list of rule outcomes. *)
Definition fired_items (outs : list (option (value * ScoreBreakdownItem * bool)))
    : list ScoreBreakdownItem :=
  flat_map (fun o => match o with Some (_, it, _) => [it] | None => [] end) outs.

Definition fired_scores (outs : list (option (value * ScoreBreakdownItem * bool)))
    : list value :=
  flat_map (fun o => match o with Some (s, _, _) => [s] | None => [] end) outs.

(** The breakdown item [evaluate_rules] builds for a matching dict rule. *)
Definition rule_item (kv : list (string * value)) (pk score : value) : ScoreBreakdownItem :=
  {| prediction_pk := pk;
     rule_id := match lookup "id" kv with Some v => v | None => VStr "untitled_rule" end;
     points := score;
     description := match lookup "description" kv with
                    | Some v => v
                    | None => VStr "Points awarded for matching rule."
                    end |}.

Definition rule_exclusive (kv : list (string * value)) : bool :=
  truthy (match lookup "exclusive" kv with Some v => v | None => VBool false end).

(** The prediction and result of the bracket scenario: team A (id 1)
    beats team B (id 2) 2-1, predicted exactly. *)
Definition scenario_prediction : value :=
  BracketCfg.match_prediction 7 (Some 1) (Some 2) (Some 1) (Some 2%Z) (Some 1%Z).

Definition scenario_result : value :=
  BracketCfg.bracket_match 9 (Some 1) (Some 2) (Some 1) (Some 2%Z) (Some 1%Z) [].

(** [set_equal] over the two team-id paths of each side, as the default
    bracket configuration and the tests write it. *)
Definition set_equal_teams : value := BracketCfg.teams_set_equal_cond.

Definition positions (l : list Leaderboard.LeaderboardEntry) : list nat :=
  map Leaderboard.position l.

Definition error_paths (errs : list Schema.ValidationError) : list string :=
  map Schema.path errs.

(** Three rules with five violations between them: rule 0 has no id,
    rule 1 no condition and an unknown scoring operator, rule 2 an [eq]
    without [target] and a [fixed] scoring without [value]. *)
Definition multi_violation_rules : list value :=
  [VDict [("condition", VDict [("operator", VStr "eq"); ("source", VStr "prediction.x");
                               ("target", VStr "result.x")]);
          ("scoring", VDict [("operator", VStr "fixed"); ("value", VInt 1)])];
   VDict [("id", VStr "b"); ("scoring", VDict [("operator", VStr "bogus")])];
   VDict [("id", VStr "c");
          ("condition", VDict [("operator", VStr "eq"); ("source", VStr "prediction.x")]);
          ("scoring", VDict [("operator", VStr "fixed")])]].

Definition multi_violation_config : value := VDict [("rules", VList multi_violation_rules)].

(** What the validator returns for [multi_violation_config]. *)
Definition multi_violation_errors : list Schema.ValidationError :=
  [Schema.err "rules[0].id" "Rule must have an 'id'";
   Schema.err "rules[1].condition" "Rule must have a 'condition'";
   Schema.err "rules[1].scoring.operator"
     "Unknown operator 'bogus'. Valid: {fixed, map_points, scaled_difference}";
   Schema.err "rules[2].condition.target" "Operator 'eq' requires field 'target'";
   Schema.err "rules[2].scoring.value" "Operator 'fixed' requires field 'value'"].

(** A one-rule configuration whose condition is an [and] with violations
    below it: its second sub-condition has an unknown operator, and its
    third is an [and] whose only sub-condition is an [in_list] lacking
    [target_list] and [list_item_key]. *)
Definition nested_violation_subconditions : list value :=
  [VDict [("operator", VStr "eq"); ("source", VStr "prediction.x");
          ("target", VStr "result.x")];
   VDict [("operator", VStr "bogus")];
   VDict [("operator", VStr "and");
          ("conditions", VList
             [VDict [("operator", VStr "in_list"); ("source", VStr "prediction.x")]])]].

Definition nested_violation_condition : list (string * value) :=
  [("operator", VStr "and"); ("conditions", VList nested_violation_subconditions)].

Definition nested_violation_rule : list (string * value) :=
  [("id", VStr "n"); ("condition", VDict nested_violation_condition);
   ("scoring", VDict [("operator", VStr "fixed"); ("value", VInt 1)])].

Definition nested_violation_config : value :=
  VDict [("rules", VList [VDict nested_violation_rule])].

(** What the validator returns for [nested_violation_config]. *)
Definition nested_violation_errors : list Schema.ValidationError :=
  [Schema.err "rules[0].condition.conditions[1].operator"
     "Unknown operator 'bogus'. Valid: {eq, and, in_list, in_list_within_top_x, list_intersects, always_true, list_contains_literal, set_equal}";
   Schema.err "rules[0].condition.conditions[2].conditions[0].target_list"
     "Operator 'in_list' requires field 'target_list'";
   Schema.err "rules[0].condition.conditions[2].conditions[0].list_item_key"
     "Operator 'in_list' requires field 'list_item_key'"].

(** [nested_condition c p c' p']: [c'] is the condition [c] itself or is
    reached from it through the [conditions] lists of [and] conditions,
    and [p'] is the path [_validate_condition] is called with for [c']
    when it is called with [p] for [c]. *)
Inductive nested_condition : value -> string -> value -> string -> Prop :=
| nested_here c p : nested_condition c p c p
| nested_and kv p cs j c0 c' p' :
    lookup "operator" kv = Some (VStr "and") ->
    lookup "conditions" kv = Some (VList cs) ->
    nth_error cs j = Some c0 ->
    nested_condition c0 (Schema.at_index (Schema.sub p "conditions") j) c' p' ->
    nested_condition (VDict kv) p c' p'.

(** A module (pk 3, tournament 4) with one [always_true] rule worth 3
    points and three predictions of users 1, 2 and 1, all keyed to the
    one result. *)
Definition demo_rule : value :=
  VDict [("id", VStr "r"); ("condition", VDict [("operator", VStr "always_true")]);
         ("scoring", VDict [("operator", VStr "fixed"); ("value", VInt 3)])].

Definition demo_module : Scores.ModuleData :=
  {| Scores.module_pk := 3; Scores.tournament_pk := 4; Scores.rules := [demo_rule];
     Scores.predictions := [(1, scenario_prediction); (2, scenario_prediction);
                            (1, scenario_prediction)];
     Scores.results := [scenario_result] |}.

Definition demo_results_map (rs : list value) : list (nat * value) := map (fun r => (9, r)) rs.

Definition demo_prediction_key (_ : value) : nat := 9.

Definition demo_item : ScoreBreakdownItem :=
  {| prediction_pk := VInt 7; rule_id := VStr "r"; points := VInt 3;
     description := VStr "Points awarded for matching rule." |}.

Definition demo_row (u : nat) (pts : Z) (bd : list ScoreBreakdownItem) : Scores.ScoreRow :=
  {| Scores.row_user := u; Scores.row_module := 3; Scores.row_tournament := 4;
     Scores.row_points := pts; Scores.row_breakdown := bd; Scores.row_is_final := false |}.

(** The table after [update_scores] of [demo_module] on an empty table. *)
Definition demo_table : list Scores.ScoreRow :=
  [demo_row 1 6 [demo_item; demo_item]; demo_row 2 3 [demo_item]].

(** A stage (id 10, next stage 11) with two blocking modules (1, 2) and a
    non-blocking one (3), none completed; stage 11 is not yet active. *)
Definition adv_module (id : nat) (blocking completed : bool) : Advance.ModuleRec :=
  {| Advance.m_id := id; Advance.m_stage := 10; Advance.m_blocking := blocking;
     Advance.m_completed := completed |}.

Definition adv_initial : Advance.State :=
  {| Advance.modules := [adv_module 1 true false; adv_module 2 true false;
                         adv_module 3 false false];
     Advance.stages := [{| Advance.s_id := 10; Advance.s_active := true;
                           Advance.s_completed := false; Advance.s_next := Some 11 |};
                        {| Advance.s_id := 11; Advance.s_active := false;
                           Advance.s_completed := false; Advance.s_next := None |}];
     Advance.populate_tasks := [] |}.

(** Non-increasing order of leaderboard values, the order [sort_desc]
    produces. *)
Definition entry_desc (a b : Leaderboard.Entry) : Prop :=
  (Leaderboard.value b <= Leaderboard.value a)%Z.

(** The row [update_or_create] writes over a matching row: new points and
    breakdown, the key and [is_final] kept. *)
Definition set_row (pts : Z) (bd : list ScoreBreakdownItem) (row : Scores.ScoreRow)
    : Scores.ScoreRow :=
  {| Scores.row_user := Scores.row_user row; Scores.row_module := Scores.row_module row;
     Scores.row_tournament := Scores.row_tournament row; Scores.row_points := pts;
     Scores.row_breakdown := bd; Scores.row_is_final := Scores.row_is_final row |}.

End Vocab.

(** ** Vocabulary of the properties of the rest of the code *)
Module XVocab.
Import Py Engine Exec.

(** Every key of a [where] clause resolves, on [item], to a value equal
    to the clause's value. *)
Definition where_holds (kv : list (string * value)) (item : value) : bool :=
  forallb (fun e => match resolve_path item (VStr (fst e)) with
                    | Ok v => py_eq v (snd e)
                    | Raise _ => false
                    end) kv.

(** The last of [items] whose join key ([resolve_path(item, tk)]) equals [k]. *)
Definition last_with_key (tk k : value) (items : list value) : option value :=
  fold_left (fun acc item => match resolve_path item tk with
                             | Ok v => if py_eq v k then Some item else acc
                             | Raise _ => acc
                             end) items None.

(** A single-mode config whose source [where] clause selects the [mvp]
    entry of [preds], and a context where [preds] is empty. *)
Definition single_config : value :=
  VDict [("source", VDict [("from", VStr "preds"); ("where", VDict [("type", VStr "mvp")])]);
         ("target", VDict [("from", VStr "res")]);
         ("rules", VList [])].

Definition empty_context : value := VDict [("preds", VList []); ("res", VList [])].

Definition nonneg_int (v : value) : bool :=
  match v with VInt z => Z.leb 0 z | _ => false end.

(** A dict rule whose scoring is [fixed] or [map_points] with
    non-negative integer points (or the operator's default). *)
Definition bounded_rule (rule : value) : bool :=
  match rule with
  | VDict kv =>
      match lookup "scoring" kv with
      | Some (VDict skv) =>
          match lookup "operator" skv with
          | Some (VStr o) =>
              if String.eqb o "fixed" then
                match lookup "value" skv with Some v => nonneg_int v | None => true end
              else if String.eqb o "map_points" then
                match lookup "scores" skv with
                | Some (VList l) => forallb nonneg_int l
                | None => true
                | Some _ => false
                end
              else false
          | _ => false
          end
      | _ => false
      end
  | _ => false
  end.

Definition int_of (v : value) : Z := match v with VInt z => z | _ => 0%Z end.

(** The most a bounded rule can award. *)
Definition rule_max (rule : value) : Z :=
  match rule with
  | VDict kv =>
      match lookup "scoring" kv with
      | Some (VDict skv) =>
          match lookup "operator" skv with
          | Some (VStr o) =>
              if String.eqb o "fixed" then
                match lookup "value" skv with Some v => int_of v | None => 0%Z end
              else if String.eqb o "map_points" then
                match lookup "scores" skv with
                | Some (VList l) => fold_right Z.max 0%Z (map int_of l)
                | _ => 0%Z
                end
              else 0%Z
          | _ => 0%Z
          end
      | _ => 0%Z
      end
  | _ => 0%Z
  end.

Definition rule_excl (rule : value) : bool :=
  match rule with VDict kv => Vocab.rule_exclusive kv | _ => false end.

(** The best exclusive rule plus all the non-exclusive ones. *)
Definition max_bound (rules : list value) : Z :=
  (fold_right Z.max 0 (map rule_max (filter rule_excl rules)) +
   fold_right Z.add 0 (map rule_max (filter (fun r => negb (rule_excl r)) rules)))%Z.

(** The position of the first of [items] whose [key] resolves to a value
    equal to [src]. *)
Fixpoint first_match_index (src key : value) (items : list value) : option nat :=
  match items with
  | [] => None
  | item :: items' =>
      match resolve_path item key with
      | Ok v => if py_eq v src then Some 0 else option_map S (first_match_index src key items')
      | Raise _ => option_map S (first_match_index src key items')
      end
  end.

(** A [scaled_difference] scoring block. *)
Definition sd_scoring (source1 source2 unit points_per_unit : value) : value :=
  VDict [("operator", VStr "scaled_difference"); ("source1", source1); ("source2", source2);
         ("unit", unit); ("points_per_unit", points_per_unit)].

(** A two-part [and] condition, and a [map_points] block with its
    context, used as concrete inputs below. *)
Definition and_witness_kv : list (string * value) :=
  [("operator", VStr "and");
   ("conditions", VList [VDict [("operator", VStr "always_true")];
                         VDict [("operator", VStr "always_true")]])].

Definition mp_scoring : value :=
  VDict [("operator", VStr "map_points"); ("source_value", VStr "prediction.winner");
         ("target_list", VStr "result.top"); ("list_item_key", VStr "id");
         ("scores", VList [VInt 5; VInt 3])].

Definition mp_prediction : value := VDict [("winner", VInt 2)].

Definition mp_result : value :=
  VDict [("top", VList [VDict [("id", VInt 1)]; VDict [("id", VInt 2)]; VDict [("id", VInt 2)]])].

(** A stage row after a save is an upgrade of the row before it: the same
    id and next stage, and neither [is_active] nor [is_completed] turned
    off. *)
Definition stage_upgrade (s s' : Advance.StageRec) : Prop :=
  Advance.s_id s' = Advance.s_id s /\ Advance.s_next s' = Advance.s_next s /\
  (Advance.s_active s = true -> Advance.s_active s' = true) /\
  (Advance.s_completed s = true -> Advance.s_completed s' = true).

(** A score row that belongs to another module or tournament. *)
Definition other_scope (m t : nat) (row : Scores.ScoreRow) : bool :=
  negb (Nat.eqb (Scores.row_module row) m && Nat.eqb (Scores.row_tournament row) t).

Definition row_key (row : Scores.ScoreRow) : nat * nat * nat :=
  (Scores.row_user row, Scores.row_module row, Scores.row_tournament row).

Definition handler_succeeded (m : string * option Populate.handler_status) : bool :=
  match snd m with Some Populate.Success => true | _ => false end.

(** Each user's total is the [sum] of their breakdown points. *)
Definition sums_ok (data : list (nat * (Z * list ScoreBreakdownItem))) : Prop :=
  Forall (fun e => py_sum (map points (snd (snd e))) = Ok (fst (snd e))) data.

End XVocab.

(** * Proofs *)

Module EngineFacts.
Import Py Engine Vocab.

(** C2: [set_equal] is not among the engine's [CONDITION_OPERATORS], so
    [eval_condition] falls through to [False] whatever the operands:
    [[a,b]] against [[b,a]] is false, against [[a,b]] too. *)
Theorem set_equal_always_false :
  forall p r, eval_condition set_equal_teams p r = Ok false.
Proof. intros p r. reflexivity. Qed.

(** C3: in the bracket scenario (winner A, 2-1, same teams, no tag) the
    engine scores the 2-point "correct_winner_and_score" tier: the
    3-point tier's condition is false because its [set_equal] part is,
    while the 2-point tier's condition is true. *)
Theorem bracket_exact_prediction_scores_two :
  eval_condition BracketCfg.winner_score_teams_cond scenario_prediction scenario_result = Ok false /\
  eval_condition BracketCfg.winner_score_cond scenario_prediction scenario_result = Ok true /\
  eval_condition BracketCfg.winner_eq scenario_prediction scenario_result = Ok true /\
  evaluate_rules BracketCfg.default_rules scenario_prediction scenario_result =
    Ok {| total_score := 2;
          breakdown := [{| prediction_pk := VInt 7;
                           rule_id := VStr "correct_winner_and_score";
                           points := VInt 2;
                           description := VStr "Correct winner and score, but wrong teams." |}] |}.
Proof. vm_compute. repeat split. Qed.

Lemma getattr_ok_or_attribute_error :
  forall v k, (exists w, getattr v k = Ok w) \/ getattr v k = Raise AttributeError.
Proof.
  intros v k. unfold getattr.
  destruct v;
    try (destruct (lookup k attrs); [left; eauto | right; reflexivity]);
    (destruct (existsb (String.eqb k) _); [left; eauto | right; reflexivity]).
Qed.

Lemma path_step_ok_or_attribute_error :
  forall acc k, (exists w, path_step acc k = Ok w) \/ path_step acc k = Raise AttributeError.
Proof.
  intros acc k. destruct acc; try apply getattr_ok_or_attribute_error. left; simpl; eauto.
Qed.

Lemma reduce_path_raises_attribute_error_only :
  forall keys acc, (exists v, reduce_path acc keys = Ok v) \/ reduce_path acc keys = Raise AttributeError.
Proof.
  induction keys as [|k ks IH]; intros acc; simpl.
  - left; eauto.
  - destruct (path_step_ok_or_attribute_error acc k) as [[w E]|E]; rewrite E; simpl;
      [apply IH | right; reflexivity].
Qed.




Lemma resolve_path_total : forall obj path, exists v, resolve_path obj path = Ok v.
Proof.
  intros obj path. destruct path; simpl; eauto.
  destruct (reduce_path_raises_attribute_error_only (split_dot s) obj) as [[v E] | E];
    rewrite E; eauto.
Qed.




Lemma evaluate_loop_acc :
  forall rules p r sc it,
    evaluate_loop rules p r sc it =
    match evaluate_loop rules p r [] [] with
    | Ok (a, b) => Ok (sc ++ a, it ++ b)
    | Raise e => Raise e
    end.
Proof.
  induction rules as [|rule rest IH]; intros p r sc it; simpl.
  - rewrite !app_nil_r. reflexivity.
  - destruct (eval_rule rule p r) as [o|e]; simpl; [|reflexivity].
    destruct o as [[[s0 item] excl]|].
    + destruct excl; [reflexivity|].
      rewrite (IH p r (sc ++ [s0]) (it ++ [item])), (IH p r [s0] [item]).
      destruct (evaluate_loop rest p r [] []) as [[a b]|e]; [|reflexivity].
      rewrite <- !app_assoc. reflexivity.
    + apply IH.
Qed.

Lemma eval_rule_points :
  forall rule p r s it b, eval_rule rule p r = Ok (Some (s, it, b)) -> points it = s.
Proof.
  intros rule p r s it b H. destruct rule; try discriminate.
  unfold eval_rule, bind in H.
  repeat match type of H with
         | context [match ?m with Ok _ => _ | Raise _ => _ end] =>
             destruct m; try discriminate
         | context [if ?c then _ else _] => destruct c; try discriminate
         end.
  inversion H; reflexivity.
Qed.

Lemma fired_points :
  forall p r pre outs,
    Forall2 (fun rule o => eval_rule rule p r = Ok o) pre outs ->
    map points (fired_items outs) = fired_scores outs.
Proof.
  intros p r pre outs H. induction H as [|rule o pre' outs' Ho _ IH]; simpl; [reflexivity|].
  destruct o as [[[s0 it] b]|]; simpl; [|exact IH].
  rewrite (eval_rule_points _ _ _ _ _ _ Ho). f_equal. exact IH.
Qed.

Lemma evaluate_loop_shape :
  forall rules p r sc it sc' it',
    evaluate_loop rules p r sc it = Ok (sc', it') ->
    exists pre rest outs,
      rules = pre ++ rest /\
      Forall2 (fun rule o => eval_rule rule p r = Ok o) pre outs /\
      it' = it ++ fired_items outs /\ sc' = sc ++ fired_scores outs /\
      ((rest = [] /\ forallb (fun o => negb (exclusive_hit o)) outs = true) \/
       (exists outs0 last,
          outs = outs0 ++ [last] /\ exclusive_hit last = true /\
          forallb (fun o => negb (exclusive_hit o)) outs0 = true /\
          forall rest', evaluate_loop (pre ++ rest') p r sc it = Ok (sc', it'))).
Proof.
  induction rules as [|rule rules' IH]; intros p r sc it sc' it' H; simpl in H.
  - inversion H; subst. exists [], [], [].
    rewrite !app_nil_r. repeat split; auto.
  - destruct (eval_rule rule p r) as [o|e] eqn:Ho; simpl in H; [|discriminate].
    destruct o as [[[s0 item] excl]|].
    + destruct excl.
      * inversion H; subst.
        exists [rule], rules', [Some (s0, item, true)].
        repeat split; auto.
        right. exists [], (Some (s0, item, true)). repeat split; auto.
        intros rest'. simpl. rewrite Ho. reflexivity.
      * destruct (IH _ _ _ _ _ _ H) as (pre & rest & outs & E & HF & Hit & Hsc & Hstop).
        exists (rule :: pre), rest, (Some (s0, item, false) :: outs).
        subst. repeat split.
        -- constructor; auto.
        -- simpl. rewrite <- app_assoc. reflexivity.
        -- simpl. rewrite <- app_assoc. reflexivity.
        -- destruct Hstop as [[-> Hf] | (outs0 & last & -> & Hl & Hf & Hrest)].
           ++ left. split; auto.
           ++ right. exists (Some (s0, item, false) :: outs0), last.
              repeat split; auto.
              intros rest'. simpl. rewrite Ho. simpl. apply Hrest.
    + destruct (IH _ _ _ _ _ _ H) as (pre & rest & outs & E & HF & Hit & Hsc & Hstop).
      exists (rule :: pre), rest, (None :: outs).
      subst. repeat split; auto.
      destruct Hstop as [[-> Hf] | (outs0 & last & -> & Hl & Hf & Hrest)].
      * left. split; auto.
      * right. exists (None :: outs0), last. repeat split; auto.
        intros rest'. simpl. rewrite Ho. simpl. apply Hrest.
Qed.

(** C1: a successful [evaluate_rules] walks the rules in order: the rules
    it evaluated ([pre]) are a prefix of the list; every matching rule
    of [pre] contributes its breakdown item, in order; it stops right
    after the first matching exclusive rule (nothing after it is
    evaluated, whatever follows), and otherwise runs to the end; and
    [total_score] is the sum of the breakdown points. *)
Theorem evaluate_rules_first_exclusive_match_wins :
  forall rules p r res,
    evaluate_rules rules p r = Ok res ->
    exists pre rest outs,
      rules = pre ++ rest /\
      Forall2 (fun rule o => eval_rule rule p r = Ok o) pre outs /\
      breakdown res = fired_items outs /\
      py_sum (map points (breakdown res)) = Ok (total_score res) /\
      ((rest = [] /\ forallb (fun o => negb (exclusive_hit o)) outs = true) \/
       (exists outs0 last,
          outs = outs0 ++ [last] /\ exclusive_hit last = true /\
          forallb (fun o => negb (exclusive_hit o)) outs0 = true /\
          forall rest', evaluate_rules (pre ++ rest') p r = Ok res)).
Proof.
  intros rules p r res H. unfold evaluate_rules, evaluate_rules_h in *.
  destruct (evaluate_loop rules p r [] []) as [[sc it]|e] eqn:Hl; simpl in H; [|discriminate].
  destruct (py_sum sc) as [t|e] eqn:Hs; simpl in H; [|discriminate].
  inversion H; subst; clear H.
  destruct (evaluate_loop_shape _ _ _ _ _ _ _ Hl)
    as (pre & rest & outs & E & HF & Hit & Hsc & Hstop).
  simpl in Hit, Hsc.
  exists pre, rest, outs. repeat split; auto.
  - simpl. rewrite Hit, (fired_points _ _ _ _ HF), <- Hsc. exact Hs.
  - destruct Hstop as [Hend | (outs0 & last & Ho & Hl' & Hf & Hrest)]; [left; exact Hend|].
    right. exists outs0, last. repeat split; auto.
    intros rest'. rewrite (Hrest rest'). simpl. rewrite Hs. reflexivity.
Qed.

Lemma eval_scoring_validates :
  forall sc p r s path, eval_scoring sc p r = Ok s ->
    exists errs, Schema.validate_scoring sc path = Ok errs.
Proof.
  intros sc p r s path H. destruct sc; try discriminate.
  unfold eval_scoring, get, bind in H. unfold Schema.validate_scoring, bind.
  destruct (lookup "operator" kv) as [op|]; [|eauto].
  destruct op; simpl in H; try discriminate; simpl; eauto.
  match goal with |- exists _, (if ?b then _ else _) = _ => destruct b end; eauto.
Qed.

(** C10: a dict rule with no ["condition"] key matches every pair: its
    scoring is evaluated and its item recorded; if exclusive it ends the
    evaluation with its points alone, otherwise its points are added to
    those of the rules after it; and the validator reports the missing
    condition at [rules[0].condition]. *)
Theorem rule_without_condition_always_matches :
  forall kv p r sc s z pk,
    lookup "condition" kv = None ->
    lookup "scoring" kv = Some sc ->
    eval_scoring sc p r = Ok s ->
    as_num s = Some z ->
    getattr p "pk" = Ok pk ->
    eval_rule (VDict kv) p r = Ok (Some (s, rule_item kv pk s, rule_exclusive kv)) /\
    (rule_exclusive kv = true -> forall rest,
       evaluate_rules (VDict kv :: rest) p r =
       Ok {| total_score := z; breakdown := [rule_item kv pk s] |}) /\
    (rule_exclusive kv = false -> forall rest res,
       evaluate_rules rest p r = Ok res ->
       evaluate_rules (VDict kv :: rest) p r =
       Ok {| total_score := z + total_score res; breakdown := rule_item kv pk s :: breakdown res |}) /\
    (exists errs, Schema.validate (VDict [("rules", VList [VDict kv])]) = Ok (false, errs) /\
       In "rules[0].condition" (error_paths errs)).
Proof.
  intros kv p r sc s z pk Hc Hsc Hs Hz Hpk.
  assert (Hrule : eval_rule (VDict kv) p r = Ok (Some (s, rule_item kv pk s, rule_exclusive kv))).
  { unfold eval_rule, has_key, getitem, get, bind. rewrite Hc, Hsc, Hs, Hpk. reflexivity. }
  split; [exact Hrule|].
  split.
  { intros Hex rest. unfold evaluate_rules, evaluate_rules_h. cbn [evaluate_loop].
    rewrite Hrule. simpl. rewrite Hex. simpl. rewrite Hz. simpl. rewrite Z.add_0_r. reflexivity. }
  split.
  { intros Hex rest res H. unfold evaluate_rules, evaluate_rules_h in *. cbn [evaluate_loop].
    rewrite Hrule. simpl. rewrite Hex.
    rewrite evaluate_loop_acc.
    destruct (evaluate_loop rest p r [] []) as [[a b]|e]; simpl in *; [|discriminate].
    unfold bind in H |- *. rewrite Hz.
    destruct (py_sum a) as [t|e]; [|discriminate].
    inversion H; subst. reflexivity. }
  { destruct (eval_scoring_validates sc p r s "rules[0].scoring" Hs) as [es Hes].
    unfold Schema.validate. simpl.
    unfold Schema.validate_rule. rewrite Hc, Hsc. unfold Schema.at_index, Schema.sub in *. simpl in *.
    rewrite Hes. simpl.
    eexists. split.
    - f_equal. f_equal. rewrite !length_app. simpl. apply Nat.eqb_neq. lia.
    - unfold error_paths. rewrite !map_app. simpl.
      apply in_or_app. left. apply in_or_app. right. simpl. left. reflexivity. }
Qed.

(** Instance of C1: the default bracket rules on the exact prediction. *)
Lemma evaluate_rules_first_exclusive_match_wins_witness :
  exists pre rest outs,
    BracketCfg.default_rules = pre ++ rest /\
    fired_items outs =
      [{| prediction_pk := VInt 7; rule_id := VStr "correct_winner_and_score";
          points := VInt 2; description := VStr "Correct winner and score, but wrong teams." |}].
Proof.
  destruct (evaluate_rules_first_exclusive_match_wins BracketCfg.default_rules
              scenario_prediction scenario_result
              {| total_score := 2;
                 breakdown := [{| prediction_pk := VInt 7;
                                  rule_id := VStr "correct_winner_and_score";
                                  points := VInt 2;
                                  description := VStr "Correct winner and score, but wrong teams." |}] |})
    as [pre [rest [outs [Hsplit [_ [Hitems _]]]]]].
  - vm_compute. reflexivity.
  - exists pre, rest, outs. split; [exact Hsplit|]. rewrite <- Hitems. reflexivity.
Defined.


(** Instance of C10: an exclusive rule with no condition put in front of
    the default bracket rules. *)
Lemma rule_without_condition_always_matches_witness :
  evaluate_rules
    (VDict [("id", VStr "bonus");
            ("scoring", VDict [("operator", VStr "fixed"); ("value", VInt 5)]);
            ("exclusive", VBool true)] :: BracketCfg.default_rules)
    scenario_prediction scenario_result =
  Ok {| total_score := 5;
        breakdown := [rule_item [("id", VStr "bonus");
                                 ("scoring", VDict [("operator", VStr "fixed"); ("value", VInt 5)]);
                                 ("exclusive", VBool true)] (VInt 7) (VInt 5)] |}.
Proof.
  apply (proj1 (proj2 (rule_without_condition_always_matches
           [("id", VStr "bonus");
            ("scoring", VDict [("operator", VStr "fixed"); ("value", VInt 5)]);
            ("exclusive", VBool true)]
           scenario_prediction scenario_result
           (VDict [("operator", VStr "fixed"); ("value", VInt 5)]) (VInt 5) 5%Z (VInt 7)
           eq_refl eq_refl ltac:(vm_compute; reflexivity) eq_refl ltac:(vm_compute; reflexivity))));
    reflexivity.
Defined.

End EngineFacts.

Module PopulateFacts.
Import Populate.

(** C5: with incomplete data at attempt [k], [populate_stage_modules]
    schedules exactly one retry, [k]-th delay of the ladder
    60, 120, 240, 360, 720, 1440 later, carrying attempt [k + 1]
    ([attempt = 0]: 60 minutes later, attempt 1); at [k = 6] and beyond it
    returns the terminal [max_retries_exceeded] failure and creates no
    schedule. *)
Theorem population_retry_ladder :
  forall now url stage_id k mods schedules,
    snd (run_handlers mods) <> [] ->
    ((k < 6)%nat ->
       exists s,
         populate_stage_modules now (Some (Some url)) stage_id k mods schedules =
           (RetryScheduled stage_id (snd (run_handlers mods)) (k + 2)
              (nth k POPULATION_RETRY_DELAYS 0%Z), schedules ++ [s]) /\
         sched_stage s = stage_id /\
         sched_attempt s = S k /\
         sched_next_run s = (now + nth k [60; 120; 240; 360; 720; 1440] 0)%Z) /\
    (k = 0%nat ->
       exists s,
         populate_stage_modules now (Some (Some url)) stage_id k mods schedules =
           (RetryScheduled stage_id (snd (run_handlers mods)) 2 60%Z, schedules ++ [s]) /\
         sched_attempt s = 1%nat /\ sched_next_run s = (now + 60)%Z) /\
    ((6 <= k)%nat ->
       populate_stage_modules now (Some (Some url)) stage_id k mods schedules =
         (PopulateError "max_retries_exceeded" (snd (run_handlers mods)), schedules)).
Proof.
  intros now url stage_id k mods schedules Hinc.
  unfold populate_stage_modules.
  destruct (run_handlers mods) as [n inc]. simpl in Hinc.
  destruct inc as [|m inc']; [congruence|].
  split; [|split].
  - intros Hk. replace (Nat.ltb k (List.length POPULATION_RETRY_DELAYS)) with true
      by (symmetry; apply Nat.ltb_lt; simpl; lia).
    eexists. split; [reflexivity|]. simpl. repeat split. lia.
  - intros ->. eexists. split; [reflexivity|]. simpl. split; reflexivity.
  - intros Hk. replace (Nat.ltb k (List.length POPULATION_RETRY_DELAYS)) with false
      by (symmetry; apply Nat.ltb_ge; simpl; lia).
    reflexivity.
Qed.

(** Instance of C5: one incomplete module, at attempt 0 and at attempt 6. *)
Lemma population_retry_ladder_witness :
  (exists sch,
     populate_stage_modules 0 (Some (Some "https://www.hltv.org/events/1")) 5 0
       [("swiss", Some Incomplete)] [] =
     (RetryScheduled 5 ["swiss"] 2 60, [] ++ [sch]) /\
     sched_attempt sch = 1%nat /\ sched_next_run sch = 60%Z) /\
  populate_stage_modules 0 (Some (Some "https://www.hltv.org/events/1")) 5 6
    [("swiss", Some Incomplete)] [] =
  (PopulateError "max_retries_exceeded" ["swiss"], []).
Proof.
  assert (Hinc : snd (run_handlers [("swiss", Some Incomplete)]) <> []).
  { simpl. discriminate. }
  split.
  - apply (proj1 (proj2 (population_retry_ladder 0 "https://www.hltv.org/events/1" 5 0
                           [("swiss", Some Incomplete)] [] Hinc)) eq_refl).
  - apply (proj2 (proj2 (population_retry_ladder 0 "https://www.hltv.org/events/1" 5 6
                           [("swiss", Some Incomplete)] [] Hinc))). lia.
Defined.

End PopulateFacts.

Module LeaderboardFacts.
Import Leaderboard.


Lemma insert_desc_perm : forall e l, Permutation (insert_desc e l) (e :: l).
Proof.
  intros e l. induction l as [|h t IH]; simpl; [reflexivity|].
  destruct (Z.ltb (value h) (value e)); [reflexivity|].
  rewrite IH. apply perm_swap.
Qed.

Lemma sort_desc_perm_acc :
  forall l acc, Permutation (fold_left (fun acc e => insert_desc e acc) l acc) (l ++ acc).
Proof.
  induction l as [|e l IH]; intros acc; simpl; [reflexivity|].
  rewrite IH, insert_desc_perm. symmetry. apply Permutation_middle.
Qed.

Lemma sort_desc_perm : forall l, Permutation (sort_desc l) l.
Proof.
  intros l. unfold sort_desc. rewrite sort_desc_perm_acc, app_nil_r. reflexivity.
Qed.

Lemma insert_desc_hd :
  forall e h t, HdRel Vocab.entry_desc h t -> Vocab.entry_desc h e -> HdRel Vocab.entry_desc h (insert_desc e t).
Proof.
  intros e h t Hh He. destruct t as [|h' t']; simpl.
  - constructor. exact He.
  - destruct (Z.ltb (value h') (value e)); constructor; [exact He|].
    inversion Hh; assumption.
Qed.

Lemma insert_desc_sorted : forall e l, Sorted Vocab.entry_desc l -> Sorted Vocab.entry_desc (insert_desc e l).
Proof.
  intros e l. induction l as [|h t IH]; intros Hs; simpl.
  - repeat constructor.
  - destruct (Z.ltb (value h) (value e)) eqn:Hlt.
    + apply Z.ltb_lt in Hlt. constructor; [exact Hs|]. constructor. unfold Vocab.entry_desc. lia.
    + apply Z.ltb_ge in Hlt. inversion Hs; subst.
      constructor; [apply IH; assumption|].
      apply insert_desc_hd; [assumption|]. unfold Vocab.entry_desc. lia.
Qed.

Lemma sort_desc_sorted : forall l, Sorted Vocab.entry_desc (sort_desc l).
Proof.
  intros l. unfold sort_desc.
  assert (H : forall acc, Sorted Vocab.entry_desc acc ->
            Sorted Vocab.entry_desc (fold_left (fun acc e => insert_desc e acc) l acc)).
  { induction l as [|e l IH]; intros acc Ha; simpl; [exact Ha|].
    apply IH, insert_desc_sorted, Ha. }
  apply H. constructor.
Qed.

Lemma sorted_adjacent :
  forall l i a b, Sorted Vocab.entry_desc l -> nth_error l i = Some a -> nth_error l (S i) = Some b ->
    Vocab.entry_desc a b.
Proof.
  induction l as [|h t IH]; intros i a b Hs Ha Hb; [destruct i; discriminate|].
  inversion Hs as [|? ? Ht Hh]; subst.
  destruct i as [|i]; simpl in Ha, Hb.
  - inversion Ha; subst. destruct t as [|h' t']; [discriminate|].
    simpl in Hb. inversion Hb; subst. inversion Hh; assumption.
  - eapply IH; eauto.
Qed.

Lemma rank_loop_values :
  forall l r pv, map le_value (rank_loop l r pv) = map value l.
Proof.
  induction l as [|e l IH]; intros r pv; simpl; [reflexivity|]. f_equal. apply IH.
Qed.

Lemma rank_loop_first :
  forall l r x, nth_error (rank_loop l r None) 0 = Some x -> position x = r.
Proof.
  intros [|e l] r x H; simpl in H; [discriminate|]. inversion H; reflexivity.
Qed.

Lemma rank_loop_step :
  forall l r pv i x y,
    nth_error (rank_loop l r pv) i = Some x ->
    nth_error (rank_loop l r pv) (S i) = Some y ->
    position y = if Z.ltb (le_value y) (le_value x) then S (position x) else position x.
Proof.
  induction l as [|e l IH]; intros r pv i x y Hx Hy; [destruct i; discriminate|].
  destruct i as [|i]; simpl in Hx, Hy.
  - inversion Hx; subst. destruct l as [|e' l']; [discriminate|].
    simpl in Hy. inversion Hy; subst. reflexivity.
  - eapply IH; eauto.
Qed.

Lemma parse_leaderboard_adjacent :
  forall entries i x y,
    nth_error (parse_leaderboard entries) i = Some x ->
    nth_error (parse_leaderboard entries) (S i) = Some y ->
    (le_value y <= le_value x)%Z /\
    position y = if Z.ltb (le_value y) (le_value x) then S (position x) else position x.
Proof.
  intros entries i x y Hx Hy. split.
  - assert (Hv : map le_value (parse_leaderboard entries) = map value (sort_desc entries))
      by apply rank_loop_values.
    assert (Hx' := f_equal (option_map le_value) Hx).
    assert (Hy' := f_equal (option_map le_value) Hy).
    rewrite <- !nth_error_map, Hv, !nth_error_map in Hx', Hy'.
    destruct (nth_error (sort_desc entries) i) as [a|] eqn:Ha; [|discriminate].
    destruct (nth_error (sort_desc entries) (S i)) as [b|] eqn:Hb; [|discriminate].
    simpl in Hx', Hy'. inversion Hx'. inversion Hy'.
    apply (sorted_adjacent _ i a b (sort_desc_sorted entries) Ha Hb).
  - eapply rank_loop_step; eauto.
Qed.

(** C7: [parse_leaderboard] ranks densely.  Entries valued 1.50, 1.50,
    1.40 (as 150, 150, 140) get positions 1, 1, 2 whatever their ids and
    names; in general the output lists the entries' values in
    non-increasing order, the first position is 1, two neighbours with
    the same value share a position, and a strictly smaller value gets the
    previous position plus one. *)
Theorem parse_leaderboard_dense_ranking :
  (forall i1 i2 i3 n1 n2 n3,
     Vocab.positions (parse_leaderboard
       [{| hltv_id := i1; name := n1; value := 150 |};
        {| hltv_id := i2; name := n2; value := 150 |};
        {| hltv_id := i3; name := n3; value := 140 |}]) = [1; 1; 2]%nat) /\
  (forall entries,
     Permutation (map le_value (parse_leaderboard entries)) (map value entries) /\
     (forall x, nth_error (parse_leaderboard entries) 0 = Some x -> position x = 1%nat) /\
     (forall i x y,
        nth_error (parse_leaderboard entries) i = Some x ->
        nth_error (parse_leaderboard entries) (S i) = Some y ->
        (le_value y <= le_value x)%Z /\
        (le_value y = le_value x -> position y = position x) /\
        ((le_value y < le_value x)%Z -> position y = S (position x)))).
Proof.
  split.
  - intros. reflexivity.
  - intros entries. split; [|split].
    + unfold parse_leaderboard. rewrite rank_loop_values.
      apply Permutation_map, sort_desc_perm.
    + intros x Hx. exact (rank_loop_first _ 1 x Hx).
    + intros i x y Hx Hy.
      destruct (parse_leaderboard_adjacent entries i x y Hx Hy) as [Hle Hpos].
      split; [exact Hle|]. split.
      * intros Heq. rewrite Hpos, Heq, Z.ltb_irrefl. reflexivity.
      * intros Hlt. rewrite Hpos. apply Z.ltb_lt in Hlt. rewrite Hlt. reflexivity.
Qed.

(** Instance of C7: the second and third entries of 150, 150, 140. *)
Lemma parse_leaderboard_dense_ranking_witness :
  (140 <= 150)%Z /\ ((140 = 150)%Z -> 2%nat = 1%nat) /\ ((140 < 150)%Z -> 2%nat = S 1).
Proof.
  exact (proj2 (proj2 (proj2 parse_leaderboard_dense_ranking
           [{| hltv_id := 1; name := "a"; value := 150 |};
            {| hltv_id := 2; name := "b"; value := 150 |};
            {| hltv_id := 3; name := "c"; value := 140 |}]))
           1 {| le_hltv_id := 2; le_name := "b"; le_value := 150; position := 1 |}
           {| le_hltv_id := 3; le_name := "c"; le_value := 140; position := 2 |}
           ltac:(vm_compute; reflexivity) ltac:(vm_compute; reflexivity)).
Defined.

End LeaderboardFacts.

Module AdvanceFacts.
Import Advance.

Lemma find_stage_id : forall id ss s, find_stage id ss = Some s -> s_id s = id.
Proof.
  unfold find_stage. intros id ss s H. apply find_some in H as [_ H].
  apply Nat.eqb_eq, H.
Qed.







Lemma find_stage_put :
  forall s id ss,
    find_stage id (map (fun s' => if Nat.eqb (s_id s') (s_id s) then s else s') ss) =
    if Nat.eqb id (s_id s) then option_map (fun _ => s) (find_stage id ss)
    else find_stage id ss.
Proof.
  intros s id ss. unfold find_stage. induction ss as [|h t IH]; simpl.
  - destruct (Nat.eqb id (s_id s)); reflexivity.
  - destruct (Nat.eqb_spec (s_id h) (s_id s)) as [E|E]; simpl.
    + destruct (Nat.eqb_spec id (s_id s)) as [->|Ne].
      * rewrite Nat.eqb_refl, E, Nat.eqb_refl. reflexivity.
      * replace (Nat.eqb (s_id s) id) with false by (symmetry; apply Nat.eqb_neq; congruence).
        replace (Nat.eqb (s_id h) id) with false by (symmetry; apply Nat.eqb_neq; congruence).
        exact IH.
    + destruct (Nat.eqb_spec (s_id h) id) as [<-|Ne].
      * replace (Nat.eqb (s_id h) (s_id s)) with false by (symmetry; apply Nat.eqb_neq; exact E).
        reflexivity.
      * rewrite IH. destruct (Nat.eqb id (s_id s)); reflexivity.
Qed.

Lemma put_stage_find :
  forall s id st,
    find_stage id (stages (put_stage s st)) =
    if Nat.eqb id (s_id s) then option_map (fun _ => s) (find_stage id (stages st))
    else find_stage id (stages st).
Proof. intros. apply find_stage_put. Qed.

Lemma put_stage_tasks : forall s st, populate_tasks (put_stage s st) = populate_tasks st.
Proof. reflexivity. Qed.

Ltac adv_norm H1 H2 H3 H4 :=
  repeat (first [ rewrite put_stage_find | rewrite put_stage_tasks | rewrite Nat.eqb_refl
                | rewrite H1 | rewrite H2 | rewrite H3 | rewrite H4
                | progress cbn [s_id s_active s_completed s_next with_completed with_active
                                option_map stages modules populate_tasks] ]).

Lemma save_completes_stage :
  forall self st old stage nid,
    find_module (m_id self) (modules st) = Some old ->
    m_completed old = false -> m_completed self = true ->
    find_stage (m_stage self) (stages st) = Some stage ->
    s_next stage = Some nid ->
    find_stage nid (stages st) <> None ->
    forallb m_completed (blocking_modules (m_stage self) (write_module self (modules st))) = true ->
    (exists s', find_stage (m_stage self) (stages (save_module self st)) = Some s' /\
                s_completed s' = true) /\
    (exists n', find_stage nid (stages (save_module self st)) = Some n' /\ s_active n' = true) /\
    populate_tasks (save_module self st) = populate_tasks st ++ [nid].
Proof.
  intros self st old stage nid Hold Ho Hs Hst Hnext Hn Hall.
  unfold save_module. rewrite Hold. cbv beta iota zeta delta [negb andb]. rewrite Ho, Hs.
  unfold check_stage_advancement. cbn [modules stages populate_tasks]. rewrite Hst.
  rewrite (find_stage_id _ _ _ Hst), Hall. cbv [negb]. rewrite Hnext.
  destruct (find_stage nid (stages st)) as [nxt|] eqn:Hnx; [|congruence].
  pose proof (find_stage_id _ _ _ Hnx) as Hid_n.
  pose proof (find_stage_id _ _ _ Hst) as Hid_s.
  destruct stage as [sid sact scomp snext], nxt as [nid' nact ncomp nnext].
  cbn in Hid_s, Hid_n, Hnext. subst sid nid' snext.
  destruct (Nat.eq_dec nid (m_stage self)) as [Heq|Hne].
  - subst nid. rewrite Hst in Hnx. injection Hnx as <- <- <-.
    destruct scomp, sact; adv_norm Hst Hst Hst Hst; split; eauto.
  - assert (Hne1 : Nat.eqb nid (m_stage self) = false) by (apply Nat.eqb_neq; exact Hne).
    assert (Hne2 : Nat.eqb (m_stage self) nid = false) by (apply Nat.eqb_neq; congruence).
    destruct scomp, nact; adv_norm Hst Hnx Hne1 Hne2; split; eauto.
Qed.

Lemma save_without_transition :
  forall self st,
    ~ (exists old, find_module (m_id self) (modules st) = Some old /\
                   m_completed old = false /\ m_completed self = true) ->
    stages (save_module self st) = stages st /\
    populate_tasks (save_module self st) = populate_tasks st.
Proof.
  intros self st Hno. unfold save_module.
  destruct (find_module (m_id self) (modules st)) as [old|] eqn:Hold; [|split; reflexivity].
  destruct (m_completed old) eqn:Ho, (m_completed self) eqn:Hs; cbv beta iota zeta delta [negb andb];
    try (split; reflexivity).
  exfalso. apply Hno. eauto.
Qed.

Lemma save_with_incomplete_blocking :
  forall self st m,
    In m (blocking_modules (m_stage self) (write_module self (modules st))) ->
    m_completed m = false ->
    stages (save_module self st) = stages st /\
    populate_tasks (save_module self st) = populate_tasks st.
Proof.
  intros self st m Hin Hm. unfold save_module.
  destruct (match find_module (m_id self) (modules st) with
            | Some old => negb (m_completed old) && m_completed self
            | None => false end); [|split; reflexivity].
  unfold check_stage_advancement. cbn [modules stages populate_tasks].
  destruct (find_stage (m_stage self) (stages st)) as [stage|] eqn:Hst; [|split; reflexivity].
  rewrite (find_stage_id _ _ _ Hst).
  replace (forallb m_completed (blocking_modules (m_stage self) (write_module self (modules st))))
    with false.
  - split; reflexivity.
  - symmetry. apply Bool.not_true_iff_false. intros Hall.
    rewrite forallb_forall in Hall. rewrite (Hall m Hin) in Hm. discriminate.
Qed.

(** C4: saving a module changes the stages or the population queue only
    when the save moves that module into [is_completed = true] and every
    [blocking_advancement] module of its stage is then completed
    (non-blocking modules play no part); in that case the stage ends
    completed, its next stage ends active and exactly one population task
    for the next stage is queued.  In the scenario with two blocking
    modules, completing the first changes nothing and completing the
    second activates stage 11 and queues its population once. *)
Theorem stage_advances_when_last_blocking_completes :
  (forall self st,
     ~ (exists old, find_module (m_id self) (modules st) = Some old /\
                    m_completed old = false /\ m_completed self = true) ->
     stages (save_module self st) = stages st /\
     populate_tasks (save_module self st) = populate_tasks st) /\
  (forall self st m,
     In m (blocking_modules (m_stage self) (write_module self (modules st))) ->
     m_completed m = false ->
     stages (save_module self st) = stages st /\
     populate_tasks (save_module self st) = populate_tasks st) /\
  (forall self st old stage nid,
     find_module (m_id self) (modules st) = Some old ->
     m_completed old = false -> m_completed self = true ->
     find_stage (m_stage self) (stages st) = Some stage ->
     s_next stage = Some nid ->
     find_stage nid (stages st) <> None ->
     forallb m_completed (blocking_modules (m_stage self) (write_module self (modules st))) = true ->
     (exists s', find_stage (m_stage self) (stages (save_module self st)) = Some s' /\
                 s_completed s' = true) /\
     (exists n', find_stage nid (stages (save_module self st)) = Some n' /\ s_active n' = true) /\
     populate_tasks (save_module self st) = populate_tasks st ++ [nid]) /\
  (let st1 := save_module (Vocab.adv_module 1 true true) Vocab.adv_initial in
   let st2 := save_module (Vocab.adv_module 2 true true) st1 in
   stages st1 = stages Vocab.adv_initial /\ populate_tasks st1 = [] /\
   find_stage 11 (stages st2) =
     Some {| s_id := 11; s_active := true; s_completed := false; s_next := None |} /\
   find_stage 10 (stages st2) =
     Some {| s_id := 10; s_active := true; s_completed := true; s_next := Some 11 |} /\
   populate_tasks st2 = [11]).
Proof.
  split; [exact save_without_transition|].
  split; [exact save_with_incomplete_blocking|].
  split; [exact save_completes_stage|].
  vm_compute. repeat split.
Qed.

(** Instance of C4: completing module 1, then module 2, of stage 10. *)
Lemma stage_advances_when_last_blocking_completes_witness :
  stages (save_module (Vocab.adv_module 1 true true) Vocab.adv_initial) =
    stages Vocab.adv_initial /\
  populate_tasks (save_module (Vocab.adv_module 2 true true)
                    (save_module (Vocab.adv_module 1 true true) Vocab.adv_initial)) =
    populate_tasks (save_module (Vocab.adv_module 1 true true) Vocab.adv_initial) ++ [11].
Proof.
  split.
  - apply (proj1 (proj1 (proj2 stage_advances_when_last_blocking_completes)
                   (Vocab.adv_module 1 true true) Vocab.adv_initial
                   (Vocab.adv_module 2 true false)
                   ltac:(vm_compute; auto) eq_refl)).
  - apply (proj2 (proj2 (proj1 (proj2 (proj2 stage_advances_when_last_blocking_completes))
                   (Vocab.adv_module 2 true true)
                   (save_module (Vocab.adv_module 1 true true) Vocab.adv_initial)
                   (Vocab.adv_module 2 true false)
                   {| s_id := 10; s_active := true; s_completed := false; s_next := Some 11 |}
                   11 ltac:(vm_compute; reflexivity) eq_refl eq_refl
                   ltac:(vm_compute; reflexivity) eq_refl
                   ltac:(vm_compute; discriminate) ltac:(vm_compute; reflexivity)))).
Defined.

End AdvanceFacts.

Module ScoresFacts.
Import Py Engine Scores.

Lemma filter_map_keys :
  forall (P : ScoreRow -> bool) f l, (forall x, P (f x) = P x) ->
    filter P (map f l) = map f (filter P l).
Proof.
  intros P f l Hf. induction l as [|x l IH]; simpl; [reflexivity|].
  rewrite Hf. destruct (P x); simpl; rewrite IH; reflexivity.
Qed.

Lemma key_match_user :
  forall u u' m t row, u <> u' -> key_match u m t row = true -> key_match u' m t row = false.
Proof.
  unfold key_match. intros u u' m t row Hne H.
  apply andb_true_iff in H as [H _]. apply andb_true_iff in H as [H _].
  apply Nat.eqb_eq in H. subst.
  rewrite (proj2 (Nat.eqb_neq _ _) Hne). reflexivity.
Qed.

Lemma update_or_create_spec :
  forall store u m t pts bd store',
    update_or_create store u m t pts bd = Ok store' ->
    (exists row, filter (key_match u m t) store' = [row] /\
                 row_points row = pts /\ row_breakdown row = bd) /\
    (forall u', u' <> u -> filter (key_match u' m t) store' = filter (key_match u' m t) store).
Proof.
  intros store u m t pts bd store' H. unfold update_or_create in H.
  destruct (filter (key_match u m t) store) as [|r [|r' rs]] eqn:Hf; try discriminate.
  - injection H as <-. split.
    + rewrite filter_app, Hf. cbn [filter app].
      replace (key_match u m t _) with true
        by (unfold key_match; cbn [row_user row_module row_tournament];
            rewrite !Nat.eqb_refl; reflexivity).
      eauto.
    + intros u' Hne. rewrite filter_app. cbn [filter].
      replace (key_match u' m t _) with false
        by (unfold key_match; cbn [row_user row_module row_tournament];
            rewrite (proj2 (Nat.eqb_neq u u') (not_eq_sym Hne)); reflexivity).
      apply app_nil_r.
  - injection H as <-.
    assert (Hkeys : forall P : ScoreRow -> bool,
              (forall row, P (Vocab.set_row pts bd row) = P row) ->
              forall x, P (if key_match u m t x then Vocab.set_row pts bd x else x) = P x).
    { intros P HP x. destruct (key_match u m t x); [apply HP|reflexivity]. }
    split.
    + rewrite filter_map_keys by (apply Hkeys; reflexivity).
      rewrite Hf. simpl.
      assert (Hr : key_match u m t r = true).
      { assert (In r (filter (key_match u m t) store)) by (rewrite Hf; left; reflexivity).
        apply filter_In in H. tauto. }
      rewrite Hr. eexists. split; [reflexivity|]. split; reflexivity.
    + intros u' Hne. rewrite filter_map_keys by (apply Hkeys; reflexivity).
      rewrite <- map_id. apply map_ext_in. intros x Hx. apply filter_In in Hx as [_ Hx].
      destruct (key_match u m t x) eqn:E; [|reflexivity].
      rewrite (key_match_user u u' m t x (not_eq_sym Hne) E) in Hx. discriminate.
Qed.

Lemma upsert_all_other :
  forall m t data store c store' c' u,
    upsert_all m t data store c = Ok (store', c') ->
    ~ In u (map fst data) ->
    filter (key_match u m t) store' = filter (key_match u m t) store.
Proof.
  induction data as [|[u0 [p0 b0]] data IH]; intros store c store' c' u H Hu; simpl in H.
  - injection H as <- _. reflexivity.
  - unfold bind in H. destruct (update_or_create store u0 m t p0 b0) as [s1|e] eqn:E;
      [|discriminate].
    simpl in Hu. rewrite (IH _ _ _ _ u H) by tauto.
    apply (proj2 (update_or_create_spec _ _ _ _ _ _ _ E)). intros ->. tauto.
Qed.

Lemma upsert_all_spec :
  forall m t data store c store' c',
    upsert_all m t data store c = Ok (store', c') ->
    NoDup (map fst data) ->
    c' = (c + List.length data)%nat /\
    (forall u pts bd, In (u, (pts, bd)) data ->
       exists row, filter (key_match u m t) store' = [row] /\
                   row_points row = pts /\ row_breakdown row = bd).
Proof.
  induction data as [|[u0 [p0 b0]] data IH]; intros store c store' c' H Hnd; simpl in H.
  - injection H as <- <-. split; [simpl; lia|]. intros ? ? ? [].
  - unfold bind in H. destruct (update_or_create store u0 m t p0 b0) as [s1|e] eqn:E;
      [|discriminate].
    simpl in Hnd. inversion Hnd as [|? ? Hnin Hnd']; subst.
    destruct (IH _ _ _ _ H Hnd') as [Hc Hrows]. split; [simpl; lia|].
    intros u pts bd [Heq|Hin].
    + injection Heq as <- <- <-.
      rewrite (upsert_all_other _ _ _ _ _ _ _ u0 H Hnin).
      exact (proj1 (update_or_create_spec _ _ _ _ _ _ _ E)).
    + exact (Hrows u pts bd Hin).
Qed.

Lemma set_row_same :
  forall row, Vocab.set_row (row_points row) (row_breakdown row) row = row.
Proof. intros []. reflexivity. Qed.

Lemma update_or_create_fixed :
  forall store u m t row,
    filter (key_match u m t) store = [row] ->
    update_or_create store u m t (row_points row) (row_breakdown row) = Ok store.
Proof.
  intros store u m t row Hf. unfold update_or_create. rewrite Hf. f_equal.
  rewrite <- map_id. apply map_ext_in. intros x Hx.
  destruct (key_match u m t x) eqn:E; [|reflexivity].
  assert (Hin : In x (filter (key_match u m t) store)) by (apply filter_In; auto).
  rewrite Hf in Hin. destruct Hin as [<-|[]].
  apply set_row_same.
Qed.

Lemma upsert_all_fixed :
  forall m t data store c,
    (forall u pts bd, In (u, (pts, bd)) data ->
       exists row, filter (key_match u m t) store = [row] /\
                   row_points row = pts /\ row_breakdown row = bd) ->
    upsert_all m t data store c = Ok (store, (c + List.length data)%nat).
Proof.
  induction data as [|[u0 [p0 b0]] data IH]; intros store c Hrows; simpl.
  - rewrite Nat.add_0_r. reflexivity.
  - destruct (Hrows u0 p0 b0 (or_introl eq_refl)) as [row [Hf [<- <-]]].
    unfold bind. rewrite (update_or_create_fixed _ _ _ _ _ Hf).
    rewrite IH by (intros; apply Hrows; right; assumption).
    f_equal. f_equal. lia.
Qed.

Lemma add_user_score_keys :
  forall u t b acc k, In k (map fst (add_user_score u t b acc)) -> k = u \/ In k (map fst acc).
Proof.
  induction acc as [|[u' [t' b']] acc IH]; intros k Hk; simpl in *.
  - destruct Hk as [<-|[]]; auto.
  - destruct (Nat.eqb u u'); simpl in Hk; [tauto|].
    destruct Hk as [Hk|Hk]; [tauto|]. destruct (IH k Hk); tauto.
Qed.

Lemma add_user_score_nodup :
  forall u t b acc, NoDup (map fst acc) -> NoDup (map fst (add_user_score u t b acc)).
Proof.
  induction acc as [|[u' [t' b']] acc IH]; intros Hnd; simpl in *.
  - constructor; [intros []|constructor].
  - inversion Hnd as [|? ? Hnin Hnd']; subst.
    destruct (Nat.eqb_spec u u'); simpl; constructor; try assumption.
    + intros Hin. destruct (add_user_score_keys _ _ _ _ _ Hin); [congruence|tauto].
    + apply IH, Hnd'.
Qed.

Lemma calculate_loop_nodup :
  forall gk rs rm preds acc data,
    calculate_loop gk rs rm preds acc = Ok data ->
    NoDup (map fst acc) -> NoDup (map fst data).
Proof.
  intros gk rs rm. induction preds as [|[u pr] preds IH]; intros acc data H Hnd; simpl in H.
  - injection H as <-. exact Hnd.
  - destruct (lookup_nat (gk pr) rm) as [res0|]; [|eapply IH; eauto].
    destruct (truthy res0); [|eapply IH; eauto].
    unfold bind in H. destruct (evaluate_rules rs pr res0) as [ev|e]; [|discriminate].
    eapply IH; [exact H|]. apply add_user_score_nodup, Hnd.
Qed.

Lemma calculate_scores_nodup :
  forall gr gk md data, calculate_scores gr gk md = Ok data -> NoDup (map fst data).
Proof.
  intros gr gk md data H. unfold calculate_scores in H.
  destruct (rules md) as [|r rs].
  - injection H as <-. constructor.
  - eapply calculate_loop_nodup; [exact H|constructor].
Qed.

(** C6: [update_scores] writes, for each user of [calculate_scores], one
    row keyed by (user, module, tournament) holding that user's total and
    breakdown, and returns the number of users; running it again on the
    table it produced, with the same module data, leaves the table as it
    is and returns the same count. *)
Theorem update_scores_idempotent :
  forall get_results_map get_prediction_key md store store1 n,
    update_scores get_results_map get_prediction_key md store = Ok (store1, n) ->
    exists data,
      calculate_scores get_results_map get_prediction_key md = Ok data /\
      n = List.length data /\ NoDup (map fst data) /\
      (forall u pts bd, In (u, (pts, bd)) data ->
         exists row, filter (key_match u (module_pk md) (tournament_pk md)) store1 = [row] /\
                     row_points row = pts /\ row_breakdown row = bd) /\
      update_scores get_results_map get_prediction_key md store1 = Ok (store1, n).
Proof.
  intros gr gk md store store1 n H. unfold update_scores, bind in *.
  destruct (calculate_scores gr gk md) as [data|e] eqn:Hc; [|discriminate].
  pose proof (calculate_scores_nodup _ _ _ _ Hc) as Hnd.
  destruct (upsert_all_spec _ _ _ _ _ _ _ H Hnd) as [Hn Hrows].
  exists data. split; [reflexivity|]. split; [simpl in Hn; exact Hn|].
  split; [exact Hnd|]. split; [exact Hrows|].
  rewrite (upsert_all_fixed _ _ _ _ 0 Hrows). simpl in Hn. subst n. reflexivity.
Qed.

(** Instance of C6: [demo_module] on an empty table. *)
Lemma update_scores_idempotent_witness :
  update_scores Vocab.demo_results_map Vocab.demo_prediction_key Vocab.demo_module
    Vocab.demo_table = Ok (Vocab.demo_table, 2%nat).
Proof.
  destruct (update_scores_idempotent Vocab.demo_results_map Vocab.demo_prediction_key
              Vocab.demo_module [] Vocab.demo_table 2 ltac:(vm_compute; reflexivity))
    as [data [_ [_ [_ [_ Hsecond]]]]].
  exact Hsecond.
Defined.

End ScoresFacts.

Module SchemaFacts.
Import Py Schema.

Lemma bind_ok :
  forall {A B} (m : res A) (k : A -> res B) v,
    bind m k = Ok v -> exists a, m = Ok a /\ k a = Ok v.
Proof. intros A B [a|e] k v H; simpl in H; [eauto|discriminate]. Qed.

Lemma validate_rules_nth :
  forall rs j errs i r,
    validate_rules rs j = Ok errs -> nth_error rs i = Some r ->
    exists e, validate_rule r (at_index "rules" (j + i)) = Ok e /\
              (forall x, In x e -> In x errs).
Proof.
  induction rs as [|r0 rs IH]; intros j errs i r H Hn; [destruct i; discriminate|].
  simpl in H. apply bind_ok in H as [e0 [He0 H]]. apply bind_ok in H as [rest [Hrest H]].
  injection H as <-.
  destruct i as [|i]; simpl in Hn.
  - injection Hn as <-. rewrite Nat.add_0_r. exists e0. split; [exact He0|].
    intros x Hx. apply in_or_app. auto.
  - destruct (IH _ _ _ _ Hrest Hn) as [e [He Hin]]. rewrite Nat.add_succ_r.
    exists e. split; [exact He|]. intros x Hx. apply in_or_app. auto.
Qed.

Lemma existsb_eqb_notin :
  forall s l, ~ In s l -> existsb (String.eqb s) l = false.
Proof.
  intros s l Hn. apply Bool.not_true_iff_false. intros H.
  apply existsb_exists in H as [x [Hx Heq]]. apply String.eqb_eq in Heq. subst. tauto.
Qed.

Lemma existsb_eqb_in :
  forall s l, In s l -> existsb (String.eqb s) l = true.
Proof.
  intros s l Hin. apply existsb_exists. exists s. split; [exact Hin|apply String.eqb_refl].
Qed.

Lemma missing_field_in :
  forall kv p op req f, In f req -> has_key f kv = false ->
    In (sub p f) (map path (missing_field_errors kv p op req)).
Proof.
  intros kv p op req f Hf Hk. unfold missing_field_errors. rewrite map_map.
  apply in_map_iff. exists f. split; [reflexivity|].
  apply filter_In. split; [exact Hf|]. rewrite Hk. reflexivity.
Qed.

Lemma validate_and_nth :
  forall n q cs i errs j c0,
    (fix go (cs : list value) (i : nat) : res (list ValidationError) :=
       match cs with
       | [] => Ok []
       | c :: cs' =>
           e <- validate_condition_f n c (at_index q i) ;;
           rest <- go cs' (S i) ;;
           Ok (e ++ rest)
       end) cs i = Ok errs ->
    nth_error cs j = Some c0 ->
    exists e, validate_condition_f n c0 (at_index q (i + j)) = Ok e /\ incl e errs.
Proof.
  intros n q. induction cs as [|c cs IH]; intros i errs j c0 H Hn; [destruct j; discriminate|].
  apply bind_ok in H as [e0 [He0 H]]. apply bind_ok in H as [rest [Hrest H]].
  injection H as <-.
  destruct j as [|j]; simpl in Hn.
  - injection Hn as <-. rewrite Nat.add_0_r. exists e0. split; [exact He0|].
    apply incl_appl, incl_refl.
  - destruct (IH _ _ _ _ Hrest Hn) as [e [He Hin]]. rewrite Nat.add_succ_r.
    exists e. split; [exact He|]. apply incl_appr, Hin.
Qed.

(** What [_validate_condition] reports about the condition it is called
    on, whatever the fuel it was given. *)
Lemma validate_condition_f_violations :
  forall n c p e,
    validate_condition_f n c p = Ok e ->
    ((forall kv, c <> VDict kv) -> In p (map path e)) /\
    (forall ckv, c = VDict ckv ->
      (lookup "operator" ckv = None -> In (sub p "operator") (map path e)) /\
      (forall s, lookup "operator" ckv = Some (VStr s) -> ~ In s CONDITION_OPERATORS ->
         In (sub p "operator") (map path e)) /\
      (forall s f, lookup "operator" ckv = Some (VStr s) -> In s CONDITION_OPERATORS ->
         In f (required_fields CONDITION_REQUIRED_FIELDS (VStr s)) -> lookup f ckv = None ->
         In (sub p f) (map path e)) /\
      (forall v, lookup "operator" ckv = Some (VStr "and") ->
         lookup "conditions" ckv = Some v -> is_list v = false ->
         In (sub p "conditions") (map path e))).
Proof.
  intros [|n] c p e H; [discriminate|]. cbn [validate_condition_f] in H.
  split.
  { intros Hnd. destruct c; try (injection H as <-; left; reflexivity).
    exfalso. exact (Hnd kv eq_refl). }
  intros ckv ->. split; [|split; [|split]].
  - intros Hop. rewrite Hop in H. injection H as <-. left. reflexivity.
  - intros s Hop Hn. rewrite Hop in H. unfold set_mem in H.
    rewrite existsb_eqb_notin in H by exact Hn. simpl in H.
    injection H as <-. left. reflexivity.
  - intros s f Hop Hin Hf Hk. rewrite Hop in H. unfold set_mem in H.
    rewrite existsb_eqb_in in H by exact Hin. simpl bind in H. simpl negb in H.
    cbv iota in H. apply bind_ok in H as [nested [_ H]]. injection H as <-.
    rewrite map_app. apply in_or_app. left.
    apply missing_field_in; [exact Hf|]. unfold has_key. rewrite Hk. reflexivity.
  - intros v Hop Hc Hl. rewrite Hop, Hc in H. unfold set_mem in H.
    rewrite existsb_eqb_in in H by (simpl; tauto). simpl bind in H. simpl negb in H.
    cbv iota in H.
    destruct v; try discriminate Hl;
      (apply bind_ok in H as [nested [Hnested H]]; injection H as <-;
       injection Hnested as <-; rewrite map_app; apply in_or_app; right; left; reflexivity).
Qed.

(** A sub-condition of an [and] is validated, under its indexed path,
    and what it reports is part of what the [and] reports. *)
Lemma validate_condition_and_sub :
  forall n kv p e cs j c0,
    validate_condition_f n (VDict kv) p = Ok e ->
    lookup "operator" kv = Some (VStr "and") ->
    lookup "conditions" kv = Some (VList cs) ->
    nth_error cs j = Some c0 ->
    exists n' e', validate_condition_f n' c0 (at_index (sub p "conditions") j) = Ok e' /\
                  incl e' e.
Proof.
  intros [|n] kv p e cs j c0 H Hop Hc Hn; [discriminate|]. cbn [validate_condition_f] in H.
  rewrite Hop, Hc in H. unfold set_mem in H.
  rewrite existsb_eqb_in in H by (simpl; tauto). simpl bind in H. simpl negb in H.
  cbv iota in H. apply bind_ok in H as [nested [Hnested H]]. injection H as <-.
  destruct (validate_and_nth _ _ _ _ _ _ _ Hnested Hn) as [e' [He' Hincl]].
  exists n, e'. split; [exact He'|]. apply incl_appr, Hincl.
Qed.

(** Every condition nested in a validated one is validated too, and
    what it reports is part of the whole report. *)
Lemma validate_condition_nested :
  forall c p c' p', Vocab.nested_condition c p c' p' ->
    forall n e, validate_condition_f n c p = Ok e ->
    exists n' e', validate_condition_f n' c' p' = Ok e' /\ incl e' e.
Proof.
  intros c p c' p' Hnest. induction Hnest as [c p | kv p cs j c0 c' p' Hop Hc Hn _ IH];
    intros n e H.
  - exists n, e. split; [exact H | apply incl_refl].
  - destruct (validate_condition_and_sub _ _ _ _ _ _ _ H Hop Hc Hn) as [n0 [e0 [He0 Hi0]]].
    destruct (IH _ _ He0) as [n' [e' [He' Hi']]].
    exists n', e'. split; [exact He'|]. eapply incl_tran; eassumption.
Qed.

Lemma validate_scoring_violations :
  forall skv p e,
    validate_scoring (VDict skv) p = Ok e ->
    (lookup "operator" skv = None -> In (sub p "operator") (map path e)) /\
    (forall s, lookup "operator" skv = Some (VStr s) -> ~ In s SCORING_OPERATORS ->
       In (sub p "operator") (map path e)) /\
    (forall s f, lookup "operator" skv = Some (VStr s) -> In s SCORING_OPERATORS ->
       In f (required_fields SCORING_REQUIRED_FIELDS (VStr s)) -> lookup f skv = None ->
       In (sub p f) (map path e)).
Proof.
  intros skv p e H. unfold validate_scoring in H.
  split; [|split].
  - intros Hop. rewrite Hop in H. injection H as <-. left. reflexivity.
  - intros s Hop Hn. rewrite Hop in H. unfold set_mem in H.
    rewrite existsb_eqb_notin in H by exact Hn. simpl in H.
    injection H as <-. left. reflexivity.
  - intros s f Hop Hin Hf Hk. rewrite Hop in H. unfold set_mem in H.
    rewrite existsb_eqb_in in H by exact Hin. simpl in H. injection H as <-.
    apply missing_field_in; [exact Hf|]. unfold has_key. rewrite Hk. reflexivity.
Qed.

Lemma validate_rule_violations :
  forall rkv p e,
    validate_rule (VDict rkv) p = Ok e ->
    (lookup "id" rkv = None -> In (sub p "id") (map path e)) /\
    (lookup "condition" rkv = None -> In (sub p "condition") (map path e)) /\
    (lookup "scoring" rkv = None -> In (sub p "scoring") (map path e)) /\
    (forall c, lookup "condition" rkv = Some c ->
       exists ec, validate_condition c (sub p "condition") = Ok ec /\
                  forall x, In x (map path ec) -> In x (map path e)) /\
    (forall skv, lookup "scoring" rkv = Some (VDict skv) ->
       exists es, validate_scoring (VDict skv) (sub p "scoring") = Ok es /\
                  forall x, In x (map path es) -> In x (map path e)).
Proof.
  intros rkv p e H. unfold validate_rule in H.
  apply bind_ok in H as [ec [Hec H]]. apply bind_ok in H as [es [Hes H]].
  injection H as <-. rewrite !map_app.
  split; [|split; [|split; [|split]]].
  - intros Hid. unfold has_key. rewrite Hid. left. reflexivity.
  - intros Hc. rewrite Hc in Hec. injection Hec as <-.
    apply in_or_app. right. apply in_or_app. left. left. reflexivity.
  - intros Hs. rewrite Hs in Hes. injection Hes as <-.
    apply in_or_app. right. apply in_or_app. right. apply in_or_app. left. left. reflexivity.
  - intros c Hc. rewrite Hc in Hec. exists ec. split; [exact Hec|].
    intros x Hx. apply in_or_app. right. apply in_or_app. left. exact Hx.
  - intros skv Hs. rewrite Hs in Hes. exists es. split; [exact Hes|].
    intros x Hx. apply in_or_app. right. apply in_or_app. right. apply in_or_app. left. exact Hx.
Qed.

Lemma validate_is_valid :
  forall cfg valid errs, validate cfg = Ok (valid, errs) -> (valid = true <-> errs = []).
Proof.
  intros cfg valid errs H. unfold validate in H.
  destruct cfg; try (injection H as <- <-; split; discriminate).
  destruct (lookup "rules" kv) as [[]|]; try (injection H as <- <-; split; discriminate).
  apply bind_ok in H as [errors [_ H]]. injection H as <- <-.
  rewrite Nat.eqb_eq, length_zero_iff_nil. reflexivity.
Qed.

(** Every condition nested in a validated one reports its own
    violations into the whole report. *)
Lemma validate_condition_nested_paths :
  forall c p e c' cp,
    validate_condition c p = Ok e -> Vocab.nested_condition c p c' cp ->
    exists n e', validate_condition_f n c' cp = Ok e' /\
                 forall x, In x (map path e') -> In x (map path e).
Proof.
  intros c p e c' cp H Hnest.
  destruct (validate_condition_nested _ _ _ _ Hnest _ _ H) as [n [e' [He' Hi]]].
  exists n, e'. split; [exact He'|].
  intros x Hx. apply in_map_iff in Hx as [y [<- Hy]]. apply in_map, Hi, Hy.
Qed.

(** C8: the validator enumerates every violation.  [is_valid] is true
    exactly when the error list is empty.  For every rule [i] that is a
    dictionary, each of these has its own entry in the error list: a
    missing [id], [condition] or [scoring] (at [rules[i].id], ...); for
    the rule's condition and, recursively, every sub-condition of an
    [and] (reported under [rules[i].condition.conditions[j]...]), a
    condition that is not a dictionary (at its path), a missing or
    unknown operator (at [<path>.operator]), each missing
    operator-specific required field (at [<path>.<field>]) and an [and]
    whose [conditions] is not a list (at [<path>.conditions]); for the
    scoring, a missing or unknown operator and each missing required
    field.  The three-rule configuration with five violations gets
    exactly those five entries, [rules[2].scoring.value] among them, and
    the configuration with violations below an [and] gets exactly its
    three, [rules[0].condition.conditions[1].operator] among them. *)
Theorem validate_reports_every_violation :
  (forall cfg valid errs, validate cfg = Ok (valid, errs) -> (valid = true <-> errs = [])) /\
  (forall kv rs valid errs i rkv,
     lookup "rules" kv = Some (VList rs) ->
     validate (VDict kv) = Ok (valid, errs) ->
     nth_error rs i = Some (VDict rkv) ->
     (lookup "id" rkv = None ->
        In (sub (at_index "rules" i) "id") (Vocab.error_paths errs)) /\
     (lookup "condition" rkv = None ->
        In (sub (at_index "rules" i) "condition") (Vocab.error_paths errs)) /\
     (lookup "scoring" rkv = None ->
        In (sub (at_index "rules" i) "scoring") (Vocab.error_paths errs)) /\
     (forall c c' cp, lookup "condition" rkv = Some c ->
        Vocab.nested_condition c (sub (at_index "rules" i) "condition") c' cp ->
        (forall ckv, c' <> VDict ckv) ->
        In cp (Vocab.error_paths errs)) /\
     (forall c ckv cp, lookup "condition" rkv = Some c ->
        Vocab.nested_condition c (sub (at_index "rules" i) "condition") (VDict ckv) cp ->
        lookup "operator" ckv = None ->
        In (sub cp "operator") (Vocab.error_paths errs)) /\
     (forall c ckv cp s, lookup "condition" rkv = Some c ->
        Vocab.nested_condition c (sub (at_index "rules" i) "condition") (VDict ckv) cp ->
        lookup "operator" ckv = Some (VStr s) -> ~ In s CONDITION_OPERATORS ->
        In (sub cp "operator") (Vocab.error_paths errs)) /\
     (forall c ckv cp s f, lookup "condition" rkv = Some c ->
        Vocab.nested_condition c (sub (at_index "rules" i) "condition") (VDict ckv) cp ->
        lookup "operator" ckv = Some (VStr s) -> In s CONDITION_OPERATORS ->
        In f (required_fields CONDITION_REQUIRED_FIELDS (VStr s)) -> lookup f ckv = None ->
        In (sub cp f) (Vocab.error_paths errs)) /\
     (forall c ckv cp v, lookup "condition" rkv = Some c ->
        Vocab.nested_condition c (sub (at_index "rules" i) "condition") (VDict ckv) cp ->
        lookup "operator" ckv = Some (VStr "and") ->
        lookup "conditions" ckv = Some v -> is_list v = false ->
        In (sub cp "conditions") (Vocab.error_paths errs)) /\
     (forall skv, lookup "scoring" rkv = Some (VDict skv) ->
        lookup "operator" skv = None ->
        In (sub (sub (at_index "rules" i) "scoring") "operator") (Vocab.error_paths errs)) /\
     (forall skv s, lookup "scoring" rkv = Some (VDict skv) ->
        lookup "operator" skv = Some (VStr s) -> ~ In s SCORING_OPERATORS ->
        In (sub (sub (at_index "rules" i) "scoring") "operator") (Vocab.error_paths errs)) /\
     (forall skv s f, lookup "scoring" rkv = Some (VDict skv) ->
        lookup "operator" skv = Some (VStr s) -> In s SCORING_OPERATORS ->
        In f (required_fields SCORING_REQUIRED_FIELDS (VStr s)) -> lookup f skv = None ->
        In (sub (sub (at_index "rules" i) "scoring") f) (Vocab.error_paths errs))) /\
  (exists errs, validate Vocab.multi_violation_config = Ok (false, errs) /\
     Vocab.error_paths errs =
       ["rules[0].id"; "rules[1].condition"; "rules[1].scoring.operator";
        "rules[2].condition.target"; "rules[2].scoring.value"]) /\
  (exists errs, validate Vocab.nested_violation_config = Ok (false, errs) /\
     Vocab.error_paths errs =
       ["rules[0].condition.conditions[1].operator";
        "rules[0].condition.conditions[2].conditions[0].target_list";
        "rules[0].condition.conditions[2].conditions[0].list_item_key"]).
Proof.
  split; [exact validate_is_valid|]. split; [|split].
  - intros kv rs valid errs i rkv Hrules H Hn.
    unfold validate in H. rewrite Hrules in H.
    apply bind_ok in H as [errors [Hv H]]. injection H as _ <-.
    destruct (validate_rules_nth _ _ _ _ _ Hv Hn) as [e [He Hincl]]. simpl in He.
    assert (Hp : forall x, In x (map path e) -> In x (Vocab.error_paths errors)).
    { intros x Hx. apply in_map_iff in Hx as [y [<- Hy]]. apply in_map, Hincl, Hy. }
    destruct (validate_rule_violations _ _ _ He) as [Hid [Hc [Hs [Hcc Hss]]]].
    assert (Hnested : forall c c' cp, lookup "condition" rkv = Some c ->
              Vocab.nested_condition c (sub (at_index "rules" i) "condition") c' cp ->
              exists n e', validate_condition_f n c' cp = Ok e' /\
                           forall x, In x (map path e') -> In x (Vocab.error_paths errors)).
    { intros c c' cp Hck Hnest. destruct (Hcc c Hck) as [ec [Hec Hin]].
      destruct (validate_condition_nested_paths _ _ _ _ _ Hec Hnest) as [n [e' [He' Hi]]].
      exists n, e'. split; [exact He'|]. intros x Hx. apply Hp, Hin, Hi, Hx. }
    split; [auto|]. split; [auto|]. split; [auto|].
    split; [|split; [|split; [|split; [|split; [|split; [|split]]]]]].
    + intros c c' cp Hck Hnest Hnd.
      destruct (Hnested _ _ _ Hck Hnest) as [n [e' [He' Hi]]].
      apply Hi. exact (proj1 (validate_condition_f_violations _ _ _ _ He') Hnd).
    + intros c ckv cp Hck Hnest Hop.
      destruct (Hnested _ _ _ Hck Hnest) as [n [e' [He' Hi]]].
      apply Hi. exact (proj1 (proj2 (validate_condition_f_violations _ _ _ _ He') ckv eq_refl) Hop).
    + intros c ckv cp s Hck Hnest Hop Hn'.
      destruct (Hnested _ _ _ Hck Hnest) as [n [e' [He' Hi]]].
      apply Hi.
      exact (proj1 (proj2 (proj2 (validate_condition_f_violations _ _ _ _ He') ckv eq_refl))
               s Hop Hn').
    + intros c ckv cp s f Hck Hnest Hop Hin' Hf Hk.
      destruct (Hnested _ _ _ Hck Hnest) as [n [e' [He' Hi]]].
      apply Hi.
      exact (proj1 (proj2 (proj2 (proj2 (validate_condition_f_violations _ _ _ _ He') ckv eq_refl)))
               s f Hop Hin' Hf Hk).
    + intros c ckv cp v Hck Hnest Hop Hcs Hl.
      destruct (Hnested _ _ _ Hck Hnest) as [n [e' [He' Hi]]].
      apply Hi.
      exact (proj2 (proj2 (proj2 (proj2 (validate_condition_f_violations _ _ _ _ He') ckv eq_refl)))
               v Hop Hcs Hl).
    + intros skv Hsk Hop. destruct (Hss skv Hsk) as [es [Hes Hin]].
      apply Hp, Hin. exact (proj1 (validate_scoring_violations _ _ _ Hes) Hop).
    + intros skv s Hsk Hop Hn'. destruct (Hss skv Hsk) as [es [Hes Hin]].
      apply Hp, Hin. exact (proj1 (proj2 (validate_scoring_violations _ _ _ Hes)) s Hop Hn').
    + intros skv s f Hsk Hop Hin' Hf Hk. destruct (Hss skv Hsk) as [es [Hes Hin]].
      apply Hp, Hin. exact (proj2 (proj2 (validate_scoring_violations _ _ _ Hes)) s f Hop Hin' Hf Hk).
  - eexists. split; [vm_compute; reflexivity|]. vm_compute. reflexivity.
  - eexists. split; [vm_compute; reflexivity|]. vm_compute. reflexivity.
Qed.

(** Instance of C8: the second sub-condition of the [and] in
    [nested_violation_config] has the unknown operator [bogus]. *)
Lemma validate_reports_every_violation_witness :
  validate Vocab.nested_violation_config = Ok (false, Vocab.nested_violation_errors) /\
  In "rules[0].condition.conditions[1].operator" (Vocab.error_paths Vocab.nested_violation_errors).
Proof.
  split; [vm_compute; reflexivity|].
  destruct (proj1 (proj2 validate_reports_every_violation)
              [("rules", VList [VDict Vocab.nested_violation_rule])]
              [VDict Vocab.nested_violation_rule]
              false Vocab.nested_violation_errors 0 Vocab.nested_violation_rule
              eq_refl ltac:(vm_compute; reflexivity) eq_refl)
    as [_ [_ [_ [_ [_ [Hunknown _]]]]]].
  exact (Hunknown (VDict Vocab.nested_violation_condition) [("operator", VStr "bogus")]
           "rules[0].condition.conditions[1]" "bogus" eq_refl
           (Vocab.nested_and Vocab.nested_violation_condition "rules[0].condition"
              Vocab.nested_violation_subconditions 1 (VDict [("operator", VStr "bogus")])
              (VDict [("operator", VStr "bogus")]) "rules[0].condition.conditions[1]"
              eq_refl eq_refl eq_refl
              (Vocab.nested_here (VDict [("operator", VStr "bogus")])
                 "rules[0].condition.conditions[1]"))
           eq_refl ltac:(simpl; intuition discriminate)).
Defined.

End SchemaFacts.

Module ExecFacts.
Import Py Engine Exec XVocab.

Lemma where_all_r :
  forall item kv,
    all_r (fun e => v <- resolve_path item (VStr (fst e)) ;; Ok (py_eq v (snd e))) kv =
    Ok (where_holds kv item).
Proof.
  intros item kv. induction kv as [|[k v] kv IH]; [reflexivity|].
  destruct (EngineFacts.resolve_path_total item (VStr k)) as [w E].
  unfold where_holds in *. cbn [all_r forallb fst snd]. rewrite E. cbn [bind].
  destruct (py_eq w v); cbn [andb]; [exact IH|reflexivity].
Qed.

Lemma matches_where_dict :
  forall item kv, matches_where item (VDict kv) = Ok (where_holds kv item).
Proof.
  intros item kv. unfold matches_where.
  destruct kv as [|e kv]; simpl; [reflexivity|].
  exact (where_all_r item (e :: kv)).
Qed.

Lemma filter_r_total :
  forall {A} (f : A -> res bool) (g : A -> bool) l,
    (forall x, f x = Ok (g x)) -> filter_r f l = Ok (filter g l).
Proof.
  intros A f g l Hf. induction l as [|x l IH]; simpl; [reflexivity|].
  rewrite Hf. simpl. rewrite IH. simpl. destruct (g x); reflexivity.
Qed.

(** [find_objects] with no [where] clause ([None], [{}] or any falsy
    value) selects the whole list, in order. *)
Theorem find_objects_falsy_where_selects_all (l : list value) (w : value) :
  truthy w = false -> find_objects (VList l) w = Ok l.
Proof.
  intros Hw. unfold find_objects. simpl.
  rewrite (filter_r_total _ (fun _ => true)).
  - rewrite filter_true. reflexivity.
  - intros x. unfold matches_where. rewrite Hw. reflexivity.
Qed.

(** [find_objects] on a list with a dict [where] clause never raises and
    keeps, in order, exactly the items on which every key of the clause
    resolves to the clause's value. *)
Theorem find_objects_dict_where (l : list value) (kv : list (string * value)) :
  find_objects (VList l) (VDict kv) = Ok (filter (where_holds kv) l).
Proof.
  unfold find_objects. simpl. apply filter_r_total. intros x. apply matches_where_dict.
Qed.

(** [find_object] on a list with a dict [where] clause returns the one
    matching item, raises [ObjectNotFoundError] when none matches and
    [AmbiguousRuleError] when two or more do. *)
Theorem find_object_unique_match (l : list value) (kv : list (string * value)) :
  find_object (VList l) (VDict kv) =
  match filter (where_holds kv) l with
  | [] => XRaise ObjectNotFoundError
  | [x] => XOk x
  | _ => XRaise AmbiguousRuleError
  end.
Proof.
  unfold find_object. rewrite find_objects_dict_where. simpl.
  destruct (filter (where_holds kv) l) as [|x [|y found]]; reflexivity.
Qed.

(** [ObjectNotFoundError] and [AmbiguousRuleError] only come from the
    single mode: a config with a truthy [join_on] never raises them. *)
Theorem selection_errors_only_in_single_mode (config data_context : value) (e : exn) :
  execute_scoring_config config data_context = XRaise e ->
  e = ObjectNotFoundError \/ e = AmbiguousRuleError ->
  exists j, get config "join_on" VNone = Ok j /\ truthy j = false.
Proof.
  intros H He. unfold execute_scoring_config, xbind, lift in H.
  destruct (getitem config "source"); [|inversion H; subst; destruct He; discriminate].
  destruct (getitem config "target"); [|inversion H; subst; destruct He; discriminate].
  destruct (collection_of data_context a); [|inversion H; subst; destruct He; discriminate].
  destruct (collection_of data_context a0); [|inversion H; subst; destruct He; discriminate].
  destruct (get config "join_on" VNone) as [j|e']; [|inversion H; subst; destruct He; discriminate].
  exists j. split; [reflexivity|].
  destruct (truthy j); [|reflexivity].
  match type of H with
  | match ?m with Ok _ => _ | Raise _ => _ end = _ => destruct m
  end; inversion H; subst; destruct He; discriminate.
Qed.

Lemma py_eq_hashable_sym :
  forall a b, hashable a = true -> hashable b = true -> py_eq a b = py_eq b a.
Proof.
  intros a b Ha Hb.
  destruct a; destruct b; simpl in *; try discriminate; try reflexivity.
  - apply Z.eqb_sym.
  - apply Z.eqb_sym.
  - apply Z.eqb_sym.
  - apply Z.eqb_sym.
  - apply String.eqb_sym.
  - apply Nat.eqb_sym.
Qed.

Lemma py_eq_hashable_trans :
  forall a b c, hashable a = true -> hashable b = true -> hashable c = true ->
    py_eq a b = true -> py_eq b c = true -> py_eq a c = true.
Proof.
  intros a b c Ha Hb Hc H1 H2.
  destruct a; destruct b; simpl in *; try discriminate;
    destruct c; simpl in *; try discriminate; try reflexivity;
    rewrite ?Z.eqb_eq, ?String.eqb_eq, ?Nat.eqb_eq in *; congruence.
Qed.

Lemma dict_lookup_set :
  forall k k' v d,
    Forall (fun e => hashable (fst e) = true) d -> hashable k = true -> hashable k' = true ->
    dict_lookup k (dict_set k' v d) = if py_eq k' k then Some v else dict_lookup k d.
Proof.
  intros k k' v d Hd Hk Hk'. induction d as [|[k1 v1] d IH]; simpl.
  - rewrite (py_eq_hashable_sym k' k Hk' Hk). reflexivity.
  - inversion Hd as [|? ? Hk1 Hd']; subst. simpl in Hk1.
    destruct (py_eq k1 k') eqn:E1; simpl.
    + destruct (py_eq k1 k) eqn:E2.
      * replace (py_eq k' k) with true; [reflexivity|].
        symmetry. apply (py_eq_hashable_trans k' k1 k); auto.
        rewrite (py_eq_hashable_sym k' k1); auto.
      * destruct (py_eq k' k) eqn:E3; [|reflexivity].
        rewrite (py_eq_hashable_trans k1 k' k) in E2; try discriminate; auto.
    + destruct (py_eq k1 k) eqn:E2.
      * destruct (py_eq k' k) eqn:E3; [|reflexivity].
        rewrite (py_eq_hashable_trans k1 k k') in E1; try discriminate; auto.
        rewrite (py_eq_hashable_sym k k'); auto.
      * apply IH. exact Hd'.
Qed.

Lemma dict_set_hashable :
  forall k v d,
    Forall (fun e => hashable (fst e) = true) d -> hashable k = true ->
    Forall (fun e => hashable (fst e) = true) (dict_set k v d).
Proof.
  intros k v d Hd Hk. induction d as [|[k1 v1] d IH]; simpl.
  - constructor; [exact Hk|constructor].
  - inversion Hd; subst. destruct (py_eq k1 k); constructor; auto.
Qed.

Lemma build_target_map_lookup :
  forall join_on tk k items d0 d,
    getitem join_on "target_key" = Ok tk ->
    Forall (fun e => hashable (fst e) = true) d0 -> hashable k = true ->
    build_target_map join_on items d0 = Ok d ->
    dict_lookup k d =
    fold_left (fun acc item => match resolve_path item tk with
                               | Ok v => if py_eq v k then Some item else acc
                               | Raise _ => acc
                               end) items (dict_lookup k d0).
Proof.
  intros join_on tk k items. induction items as [|item items IH]; intros d0 d Htk Hd0 Hk H.
  - simpl in H. injection H as <-. reflexivity.
  - simpl in H. rewrite Htk in H. simpl in H.
    destruct (EngineFacts.resolve_path_total item tk) as [key E]. rewrite E in H. simpl in H.
    destruct (hashable key) eqn:Hkey; [|discriminate].
    simpl. rewrite E. rewrite (IH _ _ Htk (dict_set_hashable _ _ _ Hd0 Hkey) Hk H).
    rewrite (dict_lookup_set k key item d0 Hd0 Hk Hkey). reflexivity.
Qed.

(** The group mode's [target_map]: looking a hashable key up gives the
    last target item whose join key equals it (a later item with the
    same key replaces an earlier one), and [None] when there is none. *)
Theorem target_map_keeps_last_item
    (join_on tk k : value) (items : list value) (d : list (value * value)) :
  getitem join_on "target_key" = Ok tk ->
  build_target_map join_on items [] = Ok d ->
  hashable k = true ->
  dict_get d k = Ok (match last_with_key tk k items with Some t => t | None => VNone end).
Proof.
  intros Htk H Hk. unfold dict_get. rewrite Hk.
  rewrite (build_target_map_lookup join_on tk k items [] d Htk (Forall_nil _) Hk H).
  reflexivity.
Qed.

Lemma lookup_in_keys :
  forall {A} (k : string) (t : list (string * A)) v, lookup k t = Some v -> In k (map fst t).
Proof.
  intros A k t v. induction t as [|[k' v'] t IH]; simpl; [discriminate|].
  destruct (String.eqb_spec k k'); [intros _; left; congruence|].
  intros H; right; exact (IH H).
Qed.

(** The engine's own [validate_rule] accepts exactly the dict rules
    whose [condition] and [scoring] are dicts with a string [operator]
    that the engine implements; every other rule raises.  So a rule whose
    condition uses [set_equal] or [list_contains_literal], which the
    schema validator knows, is rejected here. *)
Theorem engine_validate_rule_accepts (rule : value) :
  validate_rule rule = XOk true <->
  exists kv ckv skv co so,
    rule = VDict kv /\
    lookup "condition" kv = Some (VDict ckv) /\ lookup "scoring" kv = Some (VDict skv) /\
    lookup "operator" ckv = Some (VStr co) /\ lookup "operator" skv = Some (VStr so) /\
    In co (map fst Engine.CONDITION_OPERATORS) /\ In so (map fst Engine.SCORING_OPERATORS).
Proof.
  split.
  - intros H. unfold validate_rule, xbind, lift in H.
    destruct rule as [| | | s | l | kv | oid attrs]; simpl in H; try discriminate.
    + destruct (match index 0 "condition" s with Some _ => true | None => false end);
        simpl in H; [|discriminate].
      destruct (match index 0 "scoring" s with Some _ => true | None => false end);
        simpl in H; discriminate.
    + destruct (existsb (fun x => py_eq x (VStr "condition")) l); simpl in H; [|discriminate].
      destruct (existsb (fun x => py_eq x (VStr "scoring")) l); simpl in H; discriminate.
    + unfold has_key in H.
      repeat (first [discriminate |
        match type of H with
        | context [match ?m with Some _ => _ | None => _ end] => destruct m eqn:?
        | context [if ?b then _ else _] => destruct b eqn:?
        | context [get ?c _ _] => is_var c; destruct c
        | context [op_in _ ?c] => is_var c; destruct c
        end]; simpl in H).
      exists kv, kv0, kv1, s, s0. repeat split; auto.
      * exact (lookup_in_keys s CONDITION_OPERATORS c Heqo3).
      * exact (lookup_in_keys s0 SCORING_OPERATORS s1 Heqo4).
  - intros (kv & ckv & skv & co & so & -> & Hc & Hs & Hco & Hso & Hinc & Hins).
    unfold validate_rule, py_contains, has_key, getitem. rewrite !Hc, !Hs.
    cbn [xbind lift negb]. unfold get. rewrite Hco, Hso.
    simpl in Hinc, Hins.
    repeat destruct Hinc as [<-|Hinc]; try contradiction;
      repeat destruct Hins as [<-|Hins]; try contradiction; reflexivity.
Qed.

Lemma find_objects_falsy_where_selects_all_witness :
  truthy VNone = false /\ find_objects (VList [VInt 1; VStr "a"]) VNone = Ok [VInt 1; VStr "a"].
Proof.
  split; [reflexivity|]. apply find_objects_falsy_where_selects_all. reflexivity.
Defined.

Lemma selection_errors_only_in_single_mode_witness :
  execute_scoring_config single_config empty_context = XRaise ObjectNotFoundError /\
  exists j, get single_config "join_on" VNone = Ok j /\ truthy j = false.
Proof.
  split; [vm_compute; reflexivity|].
  apply (selection_errors_only_in_single_mode single_config empty_context ObjectNotFoundError).
  - vm_compute. reflexivity.
  - left. reflexivity.
Defined.

Lemma target_map_keeps_last_item_witness :
  getitem (VDict [("target_key", VStr "id")]) "target_key" = Ok (VStr "id") /\
  build_target_map (VDict [("target_key", VStr "id")])
    [VObj 1 [("id", VInt 5)]; VObj 2 [("id", VInt 5)]] [] =
    Ok [(VInt 5, VObj 2 [("id", VInt 5)])] /\
  dict_get [(VInt 5, VObj 2 [("id", VInt 5)])] (VInt 5) =
    Ok (match last_with_key (VStr "id") (VInt 5)
                [VObj 1 [("id", VInt 5)]; VObj 2 [("id", VInt 5)]] with
        | Some t => t | None => VNone end).
Proof.
  split; [reflexivity|]. split; [vm_compute; reflexivity|].
  apply (target_map_keeps_last_item (VDict [("target_key", VStr "id")]) (VStr "id")).
  - reflexivity.
  - vm_compute. reflexivity.
  - reflexivity.
Defined.

End ExecFacts.

Module BoundsFacts.
Import Py Engine Exec XVocab.
Local Open Scope Z_scope.

Lemma xbind_ok :
  forall {A B} (m : xres A) (k : A -> xres B) v,
    xbind m k = XOk v -> exists a, m = XOk a /\ k a = XOk v.
Proof. intros A B [a|e] k v H; simpl in H; [eauto|discriminate]. Qed.

Lemma rule_bounds_min : forall sc op mx mn, rule_bounds sc op = XOk (mx, mn) -> mn = VInt 0.
Proof.
  intros sc op mx mn H. unfold rule_bounds in H.
  destruct (py_eq op (VStr "fixed")).
  - apply xbind_ok in H as [v [_ H]]. congruence.
  - destruct (py_eq op (VStr "map_points")); [|congruence].
    apply xbind_ok in H as [scores [_ H]].
    destruct (truthy scores); [|congruence].
    apply xbind_ok in H as [m [_ H]]. congruence.
Qed.

Lemma bounds_loop_mins :
  forall rules em en a b em' en' a' b',
    bounds_loop rules em en a b = XOk (em', en', a', b') ->
    Forall (fun x => x = VInt 0) en -> b = 0%Z ->
    Forall (fun x => x = VInt 0) en' /\ b' = 0%Z.
Proof.
  induction rules as [|rule rest IH]; intros em en a b em' en' a' b' H Hen Hb.
  - simpl in H. injection H as <- <- <- <-. auto.
  - cbn [bounds_loop] in H.
    apply xbind_ok in H as [sc [_ H]].
    apply xbind_ok in H as [op [_ H]].
    apply xbind_ok in H as [ex [_ H]].
    apply xbind_ok in H as [[mx mn] [Eb H]].
    apply rule_bounds_min in Eb. subst mn. cbn beta iota in H.
    destruct (truthy ex).
    + eapply IH; [exact H| |exact Hb]. apply Forall_app; auto.
    + apply xbind_ok in H as [a1 [_ H]].
      apply xbind_ok in H as [b1 [Eb1 H]].
      subst b. simpl in Eb1. injection Eb1 as <-.
      eapply IH; [exact H|exact Hen|reflexivity].
Qed.

Lemma min_from_zeros :
  forall l, Forall (fun x => x = VInt 0) l -> min_from (VInt 0) l = Ok (VInt 0).
Proof.
  induction l as [|x l IH]; intros H; simpl; [reflexivity|].
  inversion H; subst. simpl. apply IH. assumption.
Qed.

(** [get_max_and_min_scores] always reports a minimum of 0: every rule's
    minimum is 0, whatever its operator, so neither the non-exclusive sum
    nor the exclusive minimum can move away from 0. *)
Theorem min_score_always_zero (rules : value) (mx mn : Z) :
  get_max_and_min_scores rules = XOk (mx, mn) -> mn = 0%Z.
Proof.
  intros H. unfold get_max_and_min_scores in H.
  apply xbind_ok in H as [rl [_ H]].
  apply xbind_ok in H as [[[[em en] a] b] [El H]]. cbn beta iota in H.
  destruct (bounds_loop_mins _ _ _ _ _ _ _ _ _ El (Forall_nil _) eq_refl) as [Hen Hb].
  apply xbind_ok in H as [emax [_ H]].
  apply xbind_ok in H as [emin [Emin H]].
  apply xbind_ok in H as [tmax [_ H]].
  apply xbind_ok in H as [tmin [Etmin H]].
  injection H as _ <-.
  assert (emin = VInt 0) as ->.
  { destruct en as [|x xs]; [congruence|].
    inversion Hen; subst. rewrite min_from_zeros in Emin by assumption.
    simpl in Emin. congruence. }
  subst b. simpl in Etmin. congruence.
Qed.

(** Facts about bounded rules. *)

Lemma in_le_fold_max :
  forall v l, In v l -> (int_of v <= fold_right Z.max 0 (map int_of l))%Z.
Proof.
  intros v l. induction l as [|x l IH]; simpl; [contradiction|].
  intros [->|Hin]; [lia|]. specialize (IH Hin). lia.
Qed.

Lemma fold_max_nonneg : forall l, (0 <= fold_right Z.max 0 l)%Z.
Proof. induction l; simpl; lia. Qed.

Lemma fold_left_max :
  forall zs z, (0 <= z)%Z -> fold_left Z.max zs z = Z.max z (fold_right Z.max 0 zs).
Proof.
  induction zs as [|y zs IH]; intros z Hz; simpl; [lia|].
  rewrite IH by lia. pose proof (fold_max_nonneg zs). lia.
Qed.

Lemma max_from_ints :
  forall xs z, forallb nonneg_int xs = true ->
    max_from (VInt z) xs = Ok (VInt (fold_left Z.max (map int_of xs) z)).
Proof.
  induction xs as [|x xs IH]; intros z H; simpl; [reflexivity|].
  apply andb_prop in H as [Hx H].
  destruct x; try discriminate. simpl.
  destruct (Z.gtb_spec z0 z); simpl; rewrite IH by assumption; f_equal; f_equal; f_equal; lia.
Qed.

Lemma nonneg_int_of : forall v, nonneg_int v = true -> v = VInt (int_of v) /\ (0 <= int_of v)%Z.
Proof. intros [] H; try discriminate. simpl in *. split; [reflexivity|lia]. Qed.

Lemma nonneg_in :
  forall v l, forallb nonneg_int l = true -> In v l -> nonneg_int v = true.
Proof. intros v l H Hin. rewrite forallb_forall in H. auto. Qed.

(** The shape of a bounded rule. *)
Lemma bounded_rule_shape :
  forall rule, bounded_rule rule = true ->
    exists kv skv o,
      rule = VDict kv /\ lookup "scoring" kv = Some (VDict skv) /\
      lookup "operator" skv = Some (VStr o) /\
      ((o = "fixed" /\ match lookup "value" skv with Some v => nonneg_int v | None => true end = true /\
        rule_max rule = match lookup "value" skv with Some v => int_of v | None => 0%Z end) \/
       (o = "map_points" /\ exists l,
          match lookup "scores" skv with Some v => v | None => VList [] end = VList l /\
          forallb nonneg_int l = true /\ rule_max rule = fold_right Z.max 0 (map int_of l))).
Proof.
  intros rule H. unfold bounded_rule in H.
  destruct rule as [| | | | | kv |]; try discriminate.
  destruct (lookup "scoring" kv) as [[| | | | | skv |]|] eqn:Es; try discriminate.
  destruct (lookup "operator" skv) as [[| | | o | | |]|] eqn:Eo; try discriminate.
  exists kv, skv, o. split; [reflexivity|]. split; [exact Es|]. split; [exact Eo|].
  unfold rule_max. rewrite Es, Eo.
  destruct (String.eqb_spec o "fixed") as [->|Hf].
  - left. auto.
  - destruct (String.eqb_spec o "map_points") as [->|Hm]; [|discriminate].
    right. split; [reflexivity|].
    destruct (lookup "scores" skv) as [[| | | | l | |]|]; try discriminate.
    + exists l. auto.
    + exists []. auto.
Qed.

Lemma rule_max_nonneg : forall rule, bounded_rule rule = true -> (0 <= rule_max rule)%Z.
Proof.
  intros rule H.
  destruct (bounded_rule_shape rule H) as (kv & skv & o & -> & Es & Eo & [(-> & Hv & Hm)|(-> & l & El & Hl & Hm)]);
    rewrite Hm.
  - destruct (lookup "value" skv) as [v|]; [|lia].
    apply nonneg_int_of in Hv. lia.
  - apply fold_max_nonneg.
Qed.

Lemma rule_excl_get :
  forall kv, match get (VDict kv) "exclusive" (VBool false) with
             | Ok ex => truthy ex = rule_excl (VDict kv)
             | Raise _ => False
             end.
Proof. intros kv. reflexivity. Qed.

Lemma rule_bounds_bounded :
  forall rule, bounded_rule rule = true ->
    exists kv skv op,
      rule = VDict kv /\
      get rule "scoring" (VDict []) = Ok (VDict skv) /\
      get (VDict skv) "operator" VNone = Ok op /\
      rule_bounds (VDict skv) op = XOk (VInt (rule_max rule), VInt 0).
Proof.
  intros rule H.
  destruct (bounded_rule_shape rule H) as (kv & skv & o & -> & Es & Eo & Hcase).
  exists kv, skv, (VStr o). split; [reflexivity|].
  split; [unfold get; rewrite Es; reflexivity|].
  split; [unfold get; rewrite Eo; reflexivity|].
  destruct Hcase as [(-> & Hv & Hm)|(-> & l & El & Hl & Hm)]; rewrite Hm.
  - unfold rule_bounds. simpl. unfold get.
    destruct (lookup "value" skv) as [v|]; [|reflexivity].
    apply nonneg_int_of in Hv as [Hv _]. rewrite Hv at 1. reflexivity.
  - unfold rule_bounds. simpl. unfold get. rewrite El.
    destruct l as [|x xs]; [reflexivity|].
    simpl in Hl. apply andb_prop in Hl as [Hx Hxs].
    apply nonneg_int_of in Hx as [Hx Hx0]. rewrite Hx. simpl. unfold py_max.
    cbn [py_iter lift xbind]. rewrite max_from_ints by assumption. cbn [lift xbind].
    rewrite fold_left_max by assumption. reflexivity.
Qed.

Lemma bounds_loop_bounded :
  forall rules em en a b,
    forallb bounded_rule rules = true ->
    bounds_loop rules em en a b =
    XOk (em ++ map (fun r => VInt (rule_max r)) (filter rule_excl rules),
         en ++ map (fun _ => VInt 0) (filter rule_excl rules),
         (a + fold_right Z.add 0 (map rule_max (filter (fun r => negb (rule_excl r)) rules)))%Z,
         b).
Proof.
  induction rules as [|rule rest IH]; intros em en a b H.
  - simpl. rewrite !app_nil_r. f_equal. f_equal. f_equal. lia.
  - simpl in H. apply andb_prop in H as [Hr Hrest].
    destruct (rule_bounds_bounded rule Hr) as (kv & skv & op & -> & Es & Eo & Eb).
    cbn [bounds_loop]. rewrite Es. cbn [lift xbind]. rewrite Eo. cbn [lift xbind].
    pose proof (rule_excl_get kv) as Ex.
    destruct (get (VDict kv) "exclusive" (VBool false)) as [ex|]; [|contradiction].
    cbn [lift xbind]. rewrite Eb. cbn [xbind].
    cbn [filter]. rewrite <- Ex.
    destruct (truthy ex).
    + rewrite IH by assumption. cbn [negb map]. rewrite <- !app_assoc. reflexivity.
    + cbn [add_int as_num lift xbind negb map fold_right].
      rewrite IH by assumption. rewrite Z.add_0_r, Z.add_assoc. reflexivity.
Qed.

Lemma get_max_bounded :
  forall rules, forallb bounded_rule rules = true ->
    get_max_and_min_scores (VList rules) = XOk (max_bound rules, 0%Z).
Proof.
  intros rules H. unfold get_max_and_min_scores. cbn [py_iter lift xbind].
  rewrite bounds_loop_bounded by assumption. cbn [xbind app].
  assert (Hnn : forall r, In r (filter rule_excl rules) -> (0 <= rule_max r)%Z).
  { intros r Hin. apply filter_In in Hin as [Hin _]. apply rule_max_nonneg.
    rewrite forallb_forall in H. auto. }
  unfold max_bound.
  destruct (filter rule_excl rules) as [|r rs] eqn:Ef; cbn [map lift xbind].
  - simpl. f_equal. f_equal. lia.
  - rewrite max_from_ints.
    2:{ rewrite forallb_forall. intros x Hx. apply in_map_iff in Hx as [r' [<- Hr']].
        simpl. apply Z.leb_le. apply Hnn. right. exact Hr'. }
    cbn [lift xbind]. rewrite min_from_zeros.
    2:{ rewrite Forall_forall. intros x Hx. apply in_map_iff in Hx as [r' [<- _]]. reflexivity. }
    cbn [lift xbind add_int as_num].
    rewrite map_map. simpl int_of.
    rewrite (fold_left_max (map (fun x => rule_max x) rs)) by (apply Hnn; left; reflexivity).
    change (fun x : value => rule_max x) with rule_max. cbn [fold_right].
    f_equal. f_equal; lia.
Qed.

Lemma map_points_scan_in :
  forall src key l idx items v,
    map_points_scan src key (VList l) idx items = Ok v -> v = VInt 0 \/ In v l.
Proof.
  intros src key l idx items. revert idx.
  induction items as [|item items IH]; intros idx v H; simpl in H.
  - injection H as <-. left; reflexivity.
  - apply SchemaFacts.bind_ok in H as [iv [_ H]].
    destruct (py_eq iv src).
    + simpl in H. destruct (Nat.ltb_spec idx (List.length l)).
      * injection H as <-. right. apply nth_In. assumption.
      * injection H as <-. left; reflexivity.
    + exact (IH _ _ H).
Qed.

Lemma eval_scoring_bounded :
  forall kv skv p r score,
    bounded_rule (VDict kv) = true -> lookup "scoring" kv = Some (VDict skv) ->
    eval_scoring (VDict skv) p r = Ok score ->
    exists s, score = VInt s /\ (0 <= s <= rule_max (VDict kv))%Z.
Proof.
  intros kv skv p r score Hb Es H.
  destruct (bounded_rule_shape _ Hb) as (kv' & skv' & o & Ekv & Es' & Eo & Hcase).
  injection Ekv as <-. rewrite Es in Es'. injection Es' as <-.
  unfold eval_scoring in H. unfold get at 1 in H. rewrite Eo in H. cbn [bind] in H.
  destruct Hcase as [(-> & Hv & Hm)|(-> & l & El & Hl & Hm)]; rewrite Hm.
  - simpl in H. unfold eval_scoring_fixed, get in H.
    destruct (lookup "value" skv) as [v|].
    + injection H as <-. apply nonneg_int_of in Hv as [Hv Hv0].
      exists (int_of v). split; [exact Hv|lia].
    + injection H as <-. exists 0%Z. split; [reflexivity|lia].
  - simpl in H. unfold eval_scoring_map_points in H.
    apply SchemaFacts.bind_ok in H as [sp [_ H]].
    apply SchemaFacts.bind_ok in H as [sv [_ H]].
    apply SchemaFacts.bind_ok in H as [tp [_ H]].
    apply SchemaFacts.bind_ok in H as [tl [_ H]].
    apply SchemaFacts.bind_ok in H as [key [_ H]].
    apply SchemaFacts.bind_ok in H as [scores [Esc H]].
    unfold get in Esc. rewrite El in Esc. injection Esc as <-.
    assert (Hin : score = VInt 0 \/ In score l).
    { destruct (_ || _ || _); [injection H as <-; left; reflexivity|].
      destruct tl; try (injection H as <-; left; reflexivity).
      eapply map_points_scan_in. exact H. }
    destruct Hin as [->|Hin].
    + exists 0%Z. split; [reflexivity|]. split; [lia|apply fold_max_nonneg].
    + pose proof (nonneg_in _ _ Hl Hin) as Hs. apply nonneg_int_of in Hs as [Hs Hs0].
      exists (int_of score). split; [exact Hs|]. split; [exact Hs0|].
      apply in_le_fold_max. exact Hin.
Qed.

Lemma eval_rule_bounded :
  forall rule p r score item ex,
    bounded_rule rule = true ->
    eval_rule rule p r = Ok (Some (score, item, ex)) ->
    exists s, score = VInt s /\ (0 <= s <= rule_max rule)%Z /\ ex = rule_excl rule.
Proof.
  intros rule p r score item ex Hb H.
  destruct (bounded_rule_shape rule Hb) as (kv & skv & o & -> & Es & _).
  unfold eval_rule in H.
  apply SchemaFacts.bind_ok in H as [m [_ H]]. destruct m; [|discriminate].
  apply SchemaFacts.bind_ok in H as [sc [Esc H]].
  unfold getitem in Esc. rewrite Es in Esc. injection Esc as <-.
  apply SchemaFacts.bind_ok in H as [sco [Ev H]].
  apply SchemaFacts.bind_ok in H as [pk [_ H]].
  apply SchemaFacts.bind_ok in H as [rid [_ H]].
  apply SchemaFacts.bind_ok in H as [desc [_ H]].
  apply SchemaFacts.bind_ok in H as [excl [Ex H]].
  injection H as <- _ <-.
  destruct (eval_scoring_bounded kv skv p r sco Hb Es Ev) as [s [-> Hs]].
  exists s. split; [reflexivity|]. split; [exact Hs|].
  unfold get in Ex. injection Ex as <-. reflexivity.
Qed.

Lemma max_bound_cons :
  forall rule rest,
    max_bound (rule :: rest) =
    if rule_excl rule
    then (Z.max (rule_max rule) (fold_right Z.max 0 (map rule_max (filter rule_excl rest))) +
          fold_right Z.add 0 (map rule_max (filter (fun r => negb (rule_excl r)) rest)))%Z
    else (fold_right Z.max 0 (map rule_max (filter rule_excl rest)) +
          (rule_max rule + fold_right Z.add 0 (map rule_max (filter (fun r => negb (rule_excl r)) rest))))%Z.
Proof. intros rule rest. unfold max_bound. simpl. destruct (rule_excl rule); reflexivity. Qed.

Lemma sum_nonneg :
  forall rules, forallb bounded_rule rules = true ->
    (0 <= fold_right Z.add 0 (map rule_max (filter (fun r => negb (rule_excl r)) rules)))%Z.
Proof.
  induction rules as [|rule rest IH]; intros H; simpl; [lia|].
  simpl in H. apply andb_prop in H as [Hr Hrest].
  pose proof (rule_max_nonneg _ Hr). specialize (IH Hrest).
  destruct (negb (rule_excl rule)); simpl; lia.
Qed.

Lemma evaluate_loop_bounded :
  forall rules p r sc it sc' it',
    forallb bounded_rule rules = true ->
    evaluate_loop rules p r sc it = Ok (sc', it') ->
    exists added, sc' = sc ++ map VInt added /\ (fold_right Z.add 0 added <= max_bound rules)%Z.
Proof.
  induction rules as [|rule rest IH]; intros p r sc it sc' it' Hb H.
  - simpl in H. injection H as <- <-. exists []. rewrite app_nil_r. split; [reflexivity|].
    unfold max_bound. simpl. lia.
  - simpl in Hb. apply andb_prop in Hb as [Hr Hrest].
    cbn [evaluate_loop] in H. apply SchemaFacts.bind_ok in H as [o [Eo H]].
    pose proof (rule_max_nonneg _ Hr) as Hm0.
    pose proof (sum_nonneg _ Hrest) as Hn0.
    pose proof (fold_max_nonneg (map rule_max (filter rule_excl rest))) as He0.
    rewrite max_bound_cons.
    destruct o as [[[score item] ex]|].
    + destruct (eval_rule_bounded _ _ _ _ _ _ Hr Eo) as [s [-> [Hs ->]]].
      destruct (rule_excl rule).
      * injection H as <- <-. exists [s]. split; [reflexivity|]. simpl. lia.
      * destruct (IH _ _ _ _ _ _ Hrest H) as [added [-> Ha]].
        exists (s :: added). rewrite <- app_assoc. split; [reflexivity|].
        unfold max_bound in Ha. simpl. lia.
    + destruct (IH _ _ _ _ _ _ Hrest H) as [added [-> Ha]].
      exists added. split; [reflexivity|]. unfold max_bound in Ha.
      destruct (rule_excl rule); lia.
Qed.

Lemma py_sum_ints : forall zs, py_sum (map VInt zs) = Ok (fold_right Z.add 0 zs).
Proof. induction zs as [|z zs IH]; simpl; [reflexivity|]. rewrite IH. reflexivity. Qed.

(** For rules that score with [fixed] or [map_points] and non-negative
    points, [get_max_and_min_scores] succeeds, and no prediction/result
    pair can score more than the maximum it reports: the best exclusive
    rule plus every non-exclusive rule. *)
Theorem evaluate_rules_within_max_score (rules : list value) (p r : value) :
  forallb bounded_rule rules = true ->
  exists mx, get_max_and_min_scores (VList rules) = XOk (mx, 0%Z) /\
    forall res, evaluate_rules rules p r = Ok res -> (total_score res <= mx)%Z.
Proof.
  intros Hb. exists (max_bound rules). split; [apply get_max_bounded; exact Hb|].
  intros res H. unfold evaluate_rules, evaluate_rules_h in H.
  apply SchemaFacts.bind_ok in H as [[scores items] [El H]].
  destruct (evaluate_loop_bounded _ _ _ _ _ _ _ Hb El) as [added [Hsc Ha]].
  rewrite app_nil_l in Hsc. subst scores. cbn beta iota in H.
  simpl in H. rewrite py_sum_ints in H. simpl in H. injection H as <-. simpl. exact Ha.
Qed.

Lemma min_score_always_zero_witness :
  get_max_and_min_scores (VList BracketCfg.default_rules) = XOk (4, 0) /\ 0 = 0.
Proof.
  split; [vm_compute; reflexivity|].
  apply (min_score_always_zero (VList BracketCfg.default_rules) 4). vm_compute. reflexivity.
Defined.

Lemma evaluate_rules_within_max_score_witness :
  forallb bounded_rule BracketCfg.default_rules = true /\
  exists mx, get_max_and_min_scores (VList BracketCfg.default_rules) = XOk (mx, 0) /\
    forall res, evaluate_rules BracketCfg.default_rules Vocab.scenario_prediction
                  Vocab.scenario_result = Ok res -> total_score res <= mx.
Proof.
  split; [vm_compute; reflexivity|].
  apply evaluate_rules_within_max_score. vm_compute. reflexivity.
Defined.

End BoundsFacts.

Module OperatorFacts.
Import Py Engine XVocab.

Lemma split_dot_aux_app :
  forall a b cur,
    split_dot_aux (String.append a (String "." b)) cur = split_dot_aux a cur ++ split_dot_aux b "".
Proof.
  induction a as [|c a IH]; intros b cur; simpl; [reflexivity|].
  destruct (Ascii.eqb c "."); rewrite IH; reflexivity.
Qed.

Lemma reduce_path_app :
  forall k1 k2 acc, reduce_path acc (k1 ++ k2) = (v <- reduce_path acc k1 ;; reduce_path v k2).
Proof.
  induction k1 as [|k k1 IH]; intros k2 acc; simpl; [reflexivity|].
  destruct (path_step acc k); simpl; [apply IH|reflexivity].
Qed.

(** Once the walk of a dotted path [p] ends without error at [v],
    resolving the path ["p.q"] from [obj] is resolving [q] from [v]. *)
Theorem resolve_path_compose (obj v : value) (p q : string) :
  reduce_path obj (split_dot p) = Ok v ->
  resolve_path obj (VStr (String.append p (String "." q))) = resolve_path v (VStr q).
Proof.
  intros H. unfold resolve_path. unfold split_dot in *.
  rewrite split_dot_aux_app, reduce_path_app, H. reflexivity.
Qed.

Lemma resolve_path_compose_witness :
  resolve_path (context Vocab.scenario_prediction Vocab.scenario_result)
    (VStr "prediction.pk.real") = Ok (VInt 7).
Proof.
  refine (eq_trans (resolve_path_compose
                      (context Vocab.scenario_prediction Vocab.scenario_result)
                      Vocab.scenario_prediction "prediction" "pk.real" _) _);
    vm_compute; reflexivity.
Defined.

Lemma value_size_pos : forall v, 0 < value_size v.
Proof. intros []; simpl; lia. Qed.

Lemma lookup_size :
  forall k kv v, lookup k kv = Some v -> value_size v < value_size (VDict kv).
Proof.
  intros k kv v. induction kv as [|[k' x] kv IH]; simpl; [discriminate|].
  destruct (String.eqb k k'); [intros [= <-]; lia|].
  intros H. specialize (IH H). simpl in IH. lia.
Qed.

Lemma in_list_size : forall c cs, In c cs -> value_size c < value_size (VList cs).
Proof.
  intros c cs. induction cs as [|x cs IH]; simpl; [contradiction|].
  intros [->|H]; [lia|]. specialize (IH H). simpl in IH. lia.
Qed.

Lemma all_r_ext :
  forall {A} (f g : A -> res bool) xs,
    (forall x, In x xs -> f x = g x) -> all_r f xs = all_r g xs.
Proof.
  intros A f g xs H. induction xs as [|x xs IH]; simpl; [reflexivity|].
  rewrite (H x (or_introl eq_refl)).
  destruct (g x); simpl; [|reflexivity].
  destruct a; [apply IH; intros y Hy; apply H; right; exact Hy|reflexivity].
Qed.

(** Any fuel at least the size of the condition gives the same answer. *)
Lemma eval_condition_fuel :
  forall n m c p r, value_size c <= n -> value_size c <= m ->
    eval_condition_f n c p r = eval_condition_f m c p r.
Proof.
  induction n as [|n IH]; intros m c p r Hn Hm.
  - pose proof (value_size_pos c). lia.
  - destruct m as [|m]; [pose proof (value_size_pos c); lia|].
    cbn [eval_condition_f].
    destruct (get c "operator" VNone) as [op|]; simpl; [|reflexivity].
    destruct (op_get CONDITION_OPERATORS op) as [[[]|]|]; simpl; try reflexivity.
    destruct c as [| | | | | kv |]; simpl; try reflexivity.
    destruct (lookup "conditions" kv) as [conds|] eqn:Ec; simpl; [|reflexivity].
    destruct (truthy conds); simpl; [|reflexivity].
    destruct conds as [| | | | cs | |]; try reflexivity.
    apply all_r_ext. intros x Hx.
    pose proof (in_list_size _ _ Hx). pose proof (lookup_size _ _ _ Ec).
    apply IH; lia.
Qed.

(** An [and] condition is false when its [conditions] list is empty, and
    otherwise evaluates its sub-conditions left to right, stopping at the
    first false one (or the first exception). *)
Theorem and_condition_semantics (kv : list (string * value)) (cs : list value) (p r : value) :
  lookup "operator" kv = Some (VStr "and") ->
  lookup "conditions" kv = Some (VList cs) ->
  eval_condition (VDict kv) p r =
  match cs with
  | [] => Ok false
  | _ => all_r (fun c => eval_condition c p r) cs
  end.
Proof.
  intros Ho Hc. unfold eval_condition.
  pose proof (lookup_size _ _ _ Hc) as Hs.
  destruct (value_size (VDict kv)) as [|n] eqn:En; [lia|].
  cbn [eval_condition_f]. unfold get. rewrite Ho. simpl. rewrite Hc.
  destruct cs as [|c0 cs]; [reflexivity|]. cbn [truthy negb bind].
  apply all_r_ext. intros x Hx.
  pose proof (in_list_size _ _ Hx).
  apply eval_condition_fuel; lia.
Qed.

Lemma map_points_scan_index :
  forall src key scores items idx,
    map_points_scan src key (VList scores) idx items =
    Ok (match first_match_index src key items with
        | Some i => nth (idx + i) scores (VInt 0)
        | None => VInt 0
        end).
Proof.
  intros src key scores items. induction items as [|item items IH]; intros idx; simpl;
    [reflexivity|].
  destruct (EngineFacts.resolve_path_total item key) as [v E]. rewrite E. simpl.
  destruct (py_eq v src).
  - rewrite Nat.add_0_r. destruct (Nat.ltb_spec idx (List.length scores)).
    + simpl. f_equal. apply nth_indep. assumption.
    + rewrite nth_overflow by assumption. reflexivity.
  - rewrite IH. destruct (first_match_index src key items); simpl; [|reflexivity].
    rewrite Nat.add_succ_r. reflexivity.
Qed.

(** [map_points] awards [scores[i]] for the position [i] of the first
    item of the target list whose key equals the source value; a later
    equal item is ignored, and a position past the end of [scores], or no
    match at all, gives 0. *)
Theorem map_points_first_match
    (scoring p r sp src tp key : value) (items scores : list value) :
  get scoring "source_value" VNone = Ok sp ->
  resolve_path (context p r) sp = Ok src -> is_none src = false ->
  get scoring "target_list" VNone = Ok tp ->
  resolve_path (context p r) tp = Ok (VList items) ->
  get scoring "list_item_key" VNone = Ok key -> truthy key = true ->
  get scoring "scores" (VList []) = Ok (VList scores) ->
  eval_scoring_map_points scoring p r =
  Ok (match first_match_index src key items with
      | Some i => nth i scores (VInt 0)
      | None => VInt 0
      end).
Proof.
  intros Hsp Hsrc Hn Htp Hitems Hkey Hk Hsc.
  unfold eval_scoring_map_points.
  rewrite Hsp. simpl. rewrite Hsrc. simpl. rewrite Htp. simpl. rewrite Hitems. simpl.
  rewrite Hkey. simpl. rewrite Hsc. simpl. rewrite Hn, Hk. simpl.
  apply map_points_scan_index.
Qed.

(** [scaled_difference] is symmetric in its two sources: swapping
    [source1] and [source2] never changes the score (or the error). *)
Theorem scaled_difference_symmetric (s1 s2 u k p r : value) :
  eval_scoring (sd_scoring s1 s2 u k) p r = eval_scoring (sd_scoring s2 s1 u k) p r.
Proof.
  unfold eval_scoring, sd_scoring. simpl. unfold eval_scoring_scaled_difference. simpl.
  destruct (EngineFacts.resolve_path_total (context p r) s1) as [v1 E1].
  destruct (EngineFacts.resolve_path_total (context p r) s2) as [v2 E2].
  rewrite E1, E2. simpl.
  destruct (is_none v1), (is_none v2); simpl; try reflexivity;
    destruct (is_none u || (is_none k || false) || py_eq u (VInt 0)); try reflexivity;
    destruct (as_num v1), (as_num v2); try reflexivity.
  replace (Z.abs (z0 - z)) with (Z.abs (z - z0)) by (rewrite <- Z.abs_opp; f_equal; lia). reflexivity.
Qed.

Lemma and_condition_semantics_witness :
  eval_condition (VDict and_witness_kv) VNone VNone =
  all_r (fun c => eval_condition c VNone VNone)
    [VDict [("operator", VStr "always_true")]; VDict [("operator", VStr "always_true")]].
Proof.
  exact (and_condition_semantics and_witness_kv _ VNone VNone eq_refl eq_refl).
Defined.

Lemma map_points_first_match_witness :
  eval_scoring_map_points mp_scoring mp_prediction mp_result = Ok (VInt 3).
Proof.
  apply (map_points_first_match mp_scoring mp_prediction mp_result
           (VStr "prediction.winner") (VInt 2) (VStr "result.top") (VStr "id")
           [VDict [("id", VInt 1)]; VDict [("id", VInt 2)]; VDict [("id", VInt 2)]]
           [VInt 5; VInt 3]); reflexivity.
Defined.

End OperatorFacts.

Module ExtraFacts.
Import Py Engine XVocab.

(** ** Leaderboard ties *)

Lemma rank_loop_ties :
  forall l r pv v,
    map Leaderboard.le_hltv_id
      (filter (fun x => Z.eqb (Leaderboard.le_value x) v) (Leaderboard.rank_loop l r pv)) =
    map Leaderboard.hltv_id (filter (fun e => Z.eqb (Leaderboard.value e) v) l).
Proof.
  induction l as [|e l IH]; intros r pv v; simpl; [reflexivity|].
  destruct (Z.eqb (Leaderboard.value e) v); simpl; rewrite IH; reflexivity.
Qed.

Lemma sorted_le_head :
  forall h t, Sorted Vocab.entry_desc (h :: t) ->
    Forall (fun x => (Leaderboard.value x <= Leaderboard.value h)%Z) t.
Proof.
  intros h t Hs. apply Sorted_StronglySorted in Hs.
  - inversion Hs; subst. eapply Forall_impl; [|eassumption].
    unfold Vocab.entry_desc. intros; lia.
  - unfold Relations_1.Transitive, Vocab.entry_desc. intros; lia.
Qed.

Lemma filter_none :
  forall {A} (f : A -> bool) l, (forall x, In x l -> f x = false) -> filter f l = [].
Proof.
  intros A f l H. induction l as [|x l IH]; simpl; [reflexivity|].
  rewrite (H x (or_introl eq_refl)). apply IH. intros y Hy. apply H. right. exact Hy.
Qed.

Lemma insert_desc_filter :
  forall e acc v, Sorted Vocab.entry_desc acc ->
    filter (fun x => Z.eqb (Leaderboard.value x) v) (Leaderboard.insert_desc e acc) =
    filter (fun x => Z.eqb (Leaderboard.value x) v) acc ++
    (if Z.eqb (Leaderboard.value e) v then [e] else []).
Proof.
  intros e acc v. induction acc as [|h t IH]; intros Hs; simpl.
  - destruct (Z.eqb (Leaderboard.value e) v); reflexivity.
  - destruct (Z.ltb (Leaderboard.value h) (Leaderboard.value e)) eqn:Hlt.
    + apply Z.ltb_lt in Hlt. pose proof (sorted_le_head _ _ Hs) as Hall.
      destruct (Z.eqb (Leaderboard.value e) v) eqn:Ev.
      * apply Z.eqb_eq in Ev. subst v.
        assert (Hnil : filter (fun x => Z.eqb (Leaderboard.value x) (Leaderboard.value e)) (h :: t) = []).
        { apply filter_none. intros x [<-|Hx]; apply Z.eqb_neq; [lia|].
          rewrite Forall_forall in Hall. specialize (Hall x Hx). lia. }
        simpl. simpl in Hnil. rewrite Hnil, Z.eqb_refl. reflexivity.
      * simpl. rewrite Ev, app_nil_r. reflexivity.
    + inversion Hs; subst. simpl.
      destruct (Z.eqb (Leaderboard.value h) v); simpl; rewrite IH by assumption; reflexivity.
Qed.

Lemma sort_desc_filter :
  forall l v,
    filter (fun x => Z.eqb (Leaderboard.value x) v) (Leaderboard.sort_desc l) =
    filter (fun x => Z.eqb (Leaderboard.value x) v) l.
Proof.
  intros l v. unfold Leaderboard.sort_desc.
  assert (H : forall acc, Sorted Vocab.entry_desc acc ->
    filter (fun x => Z.eqb (Leaderboard.value x) v)
      (fold_left (fun acc e => Leaderboard.insert_desc e acc) l acc) =
    filter (fun x => Z.eqb (Leaderboard.value x) v) acc ++
    filter (fun x => Z.eqb (Leaderboard.value x) v) l).
  { induction l as [|e l IH]; intros acc Ha; simpl; [rewrite app_nil_r; reflexivity|].
    rewrite IH by (apply LeaderboardFacts.insert_desc_sorted, Ha).
    rewrite insert_desc_filter by exact Ha. rewrite <- app_assoc.
    destruct (Z.eqb (Leaderboard.value e) v); reflexivity. }
  rewrite H by constructor. reflexivity.
Qed.

(** Tied entries keep page order: the leaderboard lists the entries that
    share a value in the order they had on the page (Python's sort is
    stable). *)
Theorem parse_leaderboard_ties_keep_page_order (l : list Leaderboard.Entry) (v : Z) :
  map Leaderboard.le_hltv_id
    (filter (fun x => Z.eqb (Leaderboard.le_value x) v) (Leaderboard.parse_leaderboard l)) =
  map Leaderboard.hltv_id (filter (fun e => Z.eqb (Leaderboard.value e) v) l).
Proof.
  unfold Leaderboard.parse_leaderboard. rewrite rank_loop_ties, sort_desc_filter. reflexivity.
Qed.

(** ** Score totals *)

Lemma py_sum_app :
  forall a b x y, py_sum a = Ok x -> py_sum b = Ok y -> py_sum (a ++ b) = Ok (x + y)%Z.
Proof.
  induction a as [|h a IH]; intros b x y Ha Hb; simpl in *.
  - injection Ha as <-. exact Hb.
  - destruct (as_num h) as [z|]; [|discriminate].
    destruct (py_sum a) as [t|e] eqn:E; simpl in Ha; [|discriminate].
    injection Ha as <-. rewrite (IH b t y eq_refl Hb). simpl. f_equal. lia.
Qed.

Lemma evaluate_rules_sum :
  forall rs p r ev, evaluate_rules rs p r = Ok ev ->
    py_sum (map points (breakdown ev)) = Ok (total_score ev).
Proof.
  intros rs p r ev H. unfold evaluate_rules, evaluate_rules_h in H.
  destruct (evaluate_loop rs p r [] []) as [[sc it]|e] eqn:Hl; simpl in H; [|discriminate].
  destruct (py_sum sc) as [t|e] eqn:Hs; simpl in H; [|discriminate].
  injection H as <-. simpl.
  destruct (EngineFacts.evaluate_loop_shape _ _ _ _ _ _ _ Hl)
    as (pre & rest & outs & _ & HF & Hit & Hsc & _).
  simpl in Hit, Hsc. rewrite Hit, (EngineFacts.fired_points _ _ _ _ HF), <- Hsc. exact Hs.
Qed.


Lemma add_user_score_sums :
  forall u t b acc, py_sum (map points b) = Ok t -> sums_ok acc ->
    sums_ok (Scores.add_user_score u t b acc).
Proof.
  intros u t b acc Hb. induction acc as [|[u' [t' b']] acc IH]; intros Ha; simpl.
  - constructor; [|constructor]. simpl. rewrite Hb. reflexivity.
  - inversion Ha; subst. destruct (Nat.eqb u u').
    + constructor; [|assumption]. simpl in *. rewrite map_app.
      apply py_sum_app; assumption.
    + constructor; [assumption|]. apply IH; assumption.
Qed.

Lemma calculate_loop_sums :
  forall gpk rs rm preds acc data,
    Scores.calculate_loop gpk rs rm preds acc = Ok data -> sums_ok acc -> sums_ok data.
Proof.
  intros gpk rs rm. induction preds as [|[u pr] preds IH]; intros acc data H Ha; simpl in H.
  - injection H as <-. exact Ha.
  - destruct (Scores.lookup_nat (gpk pr) rm) as [res0|]; [|eapply IH; eauto].
    destruct (truthy res0); [|eapply IH; eauto].
    destruct (evaluate_rules rs pr res0) as [ev|e] eqn:E; simpl in H; [|discriminate].
    eapply IH; [exact H|]. apply add_user_score_sums; [|exact Ha].
    eapply evaluate_rules_sum; exact E.
Qed.

(** Every user's total from [calculate_scores] is the sum of the points
    in that user's breakdown. *)
Theorem calculate_scores_total_is_breakdown_sum
    (grm : list value -> list (nat * value)) (gpk : value -> nat)
    (md : Scores.ModuleData) (data : list (nat * (Z * list ScoreBreakdownItem))) :
  Scores.calculate_scores grm gpk md = Ok data ->
  forall u t b, In (u, (t, b)) data -> py_sum (map points b) = Ok t.
Proof.
  intros H u t b Hin. unfold Scores.calculate_scores in H.
  assert (Hs : sums_ok data).
  { destruct (Scores.rules md) as [|r0 rs].
    - injection H as <-. constructor.
    - eapply calculate_loop_sums; [exact H|constructor]. }
  unfold sums_ok in Hs. rewrite Forall_forall in Hs. exact (Hs _ Hin).
Qed.

(** ** Score rows of other modules *)

Lemma update_or_create_scope :
  forall store u m t pts bd store',
    Scores.update_or_create store u m t pts bd = Ok store' ->
    filter (other_scope m t) store' = filter (other_scope m t) store /\
    forall row, In row store -> exists row', In row' store' /\ row_key row' = row_key row.
Proof.
  intros store u m t pts bd store' H. unfold Scores.update_or_create in H.
  destruct (filter (Scores.key_match u m t) store) as [|r [|r' rs]] eqn:Hf; try discriminate.
  - injection H as <-. split.
    + rewrite filter_app. cbn [filter].
      unfold other_scope at 2. cbn [Scores.row_module Scores.row_tournament].
      rewrite !Nat.eqb_refl. simpl. apply app_nil_r.
    + intros row Hr. exists row. split; [apply in_or_app; left; exact Hr|reflexivity].
  - injection H as <-. split.
    + rewrite ScoresFacts.filter_map_keys.
      * rewrite <- map_id. apply map_ext_in. intros x Hx.
        apply filter_In in Hx as [_ Hx].
        destruct (Scores.key_match u m t x) eqn:E; [|reflexivity].
        unfold Scores.key_match, other_scope in *.
        apply andb_true_iff in E as [E Et]. apply andb_true_iff in E as [_ Em].
        rewrite Em, Et in Hx. discriminate.
      * intros x. destruct (Scores.key_match u m t x); reflexivity.
    + intros row Hr.
      exists (if Scores.key_match u m t row then Vocab.set_row pts bd row else row).
      split; [exact (in_map (fun row => if Scores.key_match u m t row
                                        then Vocab.set_row pts bd row else row) _ _ Hr)|].
      destruct (Scores.key_match u m t row); reflexivity.
Qed.

(** [update_scores] writes only rows of its own module and tournament:
    the rows of every other module or tournament come out unchanged and
    in order, and no row is deleted (each row before has a row with the
    same user, module and tournament after). *)
Theorem update_scores_keeps_other_rows
    (grm : list value -> list (nat * value)) (gpk : value -> nat)
    (md : Scores.ModuleData) (store store' : list Scores.ScoreRow) (n : nat) :
  Scores.update_scores grm gpk md store = Ok (store', n) ->
  filter (other_scope (Scores.module_pk md) (Scores.tournament_pk md)) store' =
  filter (other_scope (Scores.module_pk md) (Scores.tournament_pk md)) store /\
  forall row, In row store -> exists row', In row' store' /\ row_key row' = row_key row.
Proof.
  intros H. unfold Scores.update_scores in H.
  destruct (Scores.calculate_scores grm gpk md) as [data|e]; simpl in H; [|discriminate].
  generalize dependent n. generalize 0%nat. generalize dependent store.
  induction data as [|[u [pts bd]] data IH]; intros store c n H; simpl in H.
  - injection H as <- _. split; [reflexivity|]. intros row Hr. eauto.
  - destruct (Scores.update_or_create store u _ _ pts bd) as [s1|e] eqn:E;
      simpl in H; [|discriminate].
    destruct (update_or_create_scope _ _ _ _ _ _ _ E) as [E1 E2].
    destruct (IH s1 _ _ H) as [F1 F2]. split; [congruence|].
    intros row Hr. destruct (E2 row Hr) as [r1 [Hr1 K1]].
    destruct (F2 r1 Hr1) as [r2 [Hr2 K2]]. exists r2. split; [exact Hr2|congruence].
Qed.

(** ** Stage saves *)

Lemma nodup_same_id :
  forall ss a b, NoDup (map Advance.s_id ss) -> In a ss -> In b ss ->
    Advance.s_id a = Advance.s_id b -> a = b.
Proof.
  induction ss as [|x ss IH]; intros a b Hnd Ha Hb E; [destruct Ha|].
  inversion Hnd as [|? ? Hx Hnd']; subst.
  destruct Ha as [<-|Ha], Hb as [<-|Hb]; auto.
  - exfalso. apply Hx. rewrite E. apply in_map. exact Hb.
  - exfalso. apply Hx. rewrite <- E. apply in_map. exact Ha.
Qed.

Lemma find_stage_in :
  forall id ss s, Advance.find_stage id ss = Some s -> In s ss /\ Advance.s_id s = id.
Proof.
  intros id ss s H. unfold Advance.find_stage in H.
  destruct (find_some _ _ H) as [Hin Hid]. apply Nat.eqb_eq in Hid. auto.
Qed.

Lemma stage_upgrade_refl : forall s, stage_upgrade s s.
Proof. intros s. unfold stage_upgrade. auto. Qed.

Lemma stage_upgrade_trans :
  forall a b c, stage_upgrade a b -> stage_upgrade b c -> stage_upgrade a c.
Proof. unfold stage_upgrade. intros a b c (? & ? & ? & ?) (? & ? & ? & ?). repeat split; auto; congruence. Qed.

(** Writing back an upgraded copy of a stage that is in the store. *)
Lemma put_stage_upgrade :
  forall st s x,
    NoDup (map Advance.s_id (Advance.stages st)) -> In s (Advance.stages st) ->
    stage_upgrade s x ->
    Forall2 stage_upgrade (Advance.stages st) (Advance.stages (Advance.put_stage x st)).
Proof.
  intros st s x Hnd Hs Hx. unfold Advance.put_stage. simpl.
  assert (Hin : forall y, In y (Advance.stages st) ->
            stage_upgrade y (if Nat.eqb (Advance.s_id y) (Advance.s_id x) then x else y)).
  { intros y Hy. destruct (Nat.eqb (Advance.s_id y) (Advance.s_id x)) eqn:E;
      [|apply stage_upgrade_refl].
    apply Nat.eqb_eq in E. destruct Hx as [Hid Hx].
    rewrite (nodup_same_id _ y s Hnd Hy Hs ltac:(congruence)). split; auto. }
  clear Hnd Hs Hx.
  induction (Advance.stages st) as [|y ys IH]; simpl; constructor.
  - apply Hin. left; reflexivity.
  - apply IH; intros; apply Hin; right; assumption.
Qed.

Lemma forall2_upgrade_trans :
  forall l1 l2 l3, Forall2 stage_upgrade l1 l2 -> Forall2 stage_upgrade l2 l3 ->
    Forall2 stage_upgrade l1 l3.
Proof.
  intros l1 l2 l3 H12. revert l3. induction H12; intros l3 H23; inversion H23; subst;
    constructor; eauto using stage_upgrade_trans.
Qed.

Lemma forall2_upgrade_refl : forall l, Forall2 stage_upgrade l l.
Proof. induction l; constructor; auto using stage_upgrade_refl. Qed.

Lemma forall2_upgrade_ids :
  forall l1 l2, Forall2 stage_upgrade l1 l2 -> map Advance.s_id l2 = map Advance.s_id l1.
Proof.
  intros l1 l2 H. induction H as [|a b l1 l2 [Hab _] _ IH]; simpl; congruence.
Qed.

Lemma check_stage_advancement_upgrade :
  forall self st,
    NoDup (map Advance.s_id (Advance.stages st)) ->
    Forall2 stage_upgrade (Advance.stages st)
      (Advance.stages (Advance.check_stage_advancement self st)) /\
    Advance.modules (Advance.check_stage_advancement self st) = Advance.modules st /\
    exists extra, Advance.populate_tasks (Advance.check_stage_advancement self st) =
                  Advance.populate_tasks st ++ extra /\ (List.length extra <= 1)%nat.
Proof.
  intros self st Hnd. unfold Advance.check_stage_advancement.
  destruct (Advance.find_stage (Advance.m_stage self) (Advance.stages st)) as [stage|] eqn:Fs;
    [|split; [apply forall2_upgrade_refl|split; [reflexivity|exists []; rewrite app_nil_r; auto]]].
  destruct (negb _); [split; [apply forall2_upgrade_refl|split; [reflexivity|exists []; rewrite app_nil_r; auto]]|].
  destruct (find_stage_in _ _ _ Fs) as [Hin _].
  set (st1 := if Advance.s_completed stage then st
              else Advance.put_stage (Advance.with_completed stage) st).
  assert (H1 : Forall2 stage_upgrade (Advance.stages st) (Advance.stages st1) /\
               Advance.modules st1 = Advance.modules st /\
               Advance.populate_tasks st1 = Advance.populate_tasks st).
  { subst st1. destruct (Advance.s_completed stage);
      [split; [apply forall2_upgrade_refl|auto]|].
    split; [|split; reflexivity].
    eapply put_stage_upgrade; [exact Hnd|exact Hin|].
    unfold stage_upgrade, Advance.with_completed. simpl. auto. }
  destruct H1 as [U1 [M1 P1]].
  assert (Hnd1 : NoDup (map Advance.s_id (Advance.stages st1)))
    by (rewrite (forall2_upgrade_ids _ _ U1); exact Hnd).
  clearbody st1.
  destruct (Advance.s_next stage) as [nid|];
    [|split; [exact U1|split; [exact M1|exists []; rewrite app_nil_r; auto]]].
  destruct (Advance.find_stage nid (Advance.stages st1)) as [ns|] eqn:Fn;
    [|split; [exact U1|split; [exact M1|exists []; rewrite app_nil_r; auto]]].
  destruct (find_stage_in _ _ _ Fn) as [Hin2 _].
  set (st2 := if Advance.s_active ns then st1
              else Advance.put_stage (Advance.with_active ns) st1).
  assert (H2 : Forall2 stage_upgrade (Advance.stages st1) (Advance.stages st2) /\
               Advance.modules st2 = Advance.modules st1 /\
               Advance.populate_tasks st2 = Advance.populate_tasks st1).
  { subst st2. destruct (Advance.s_active ns);
      [split; [apply forall2_upgrade_refl|auto]|].
    split; [|split; reflexivity].
    eapply put_stage_upgrade; [exact Hnd1|exact Hin2|].
    unfold stage_upgrade, Advance.with_active. simpl. auto. }
  destruct H2 as [U2 [M2 P2]]. clearbody st2. simpl.
  split; [eapply forall2_upgrade_trans; eauto|].
  split; [congruence|]. exists [nid]. split; [congruence|simpl; lia].
Qed.

(** Saving a module never deactivates or un-completes a stage, never
    changes a stage's id or next stage, and adds at most one population
    task to the end of the queue, given that stage ids are unique (they
    are primary keys). *)
Theorem save_module_stages_only_advance
    (self : Advance.ModuleRec) (st : Advance.State) :
  NoDup (map Advance.s_id (Advance.stages st)) ->
  Forall2 stage_upgrade (Advance.stages st) (Advance.stages (Advance.save_module self st)) /\
  exists extra, Advance.populate_tasks (Advance.save_module self st) =
                Advance.populate_tasks st ++ extra /\ (List.length extra <= 1)%nat.
Proof.
  intros Hnd. unfold Advance.save_module.
  destruct (match Advance.find_module _ _ with Some old => _ | None => false end).
  - destruct (check_stage_advancement_upgrade self
                {| Advance.modules := Advance.write_module self (Advance.modules st);
                   Advance.stages := Advance.stages st;
                   Advance.populate_tasks := Advance.populate_tasks st |} Hnd)
      as [U [_ P]].
    split; [exact U|exact P].
  - simpl. split; [apply forall2_upgrade_refl|exists []; rewrite app_nil_r; auto].
Qed.

(** ** Population results *)

Lemma run_handlers_spec :
  forall mods,
    fst (Populate.run_handlers mods) = List.length (filter handler_succeeded mods) /\
    (snd (Populate.run_handlers mods) = [] <->
     forall name, ~ In (name, Some Populate.Incomplete) mods).
Proof.
  induction mods as [|[name h] mods [IH1 IH2]]; simpl.
  - split; [reflexivity|split; [intros _ ? []|reflexivity]].
  - destruct (Populate.run_handlers mods) as [n inc]. simpl in *.
    destruct h as [[| |]|]; unfold handler_succeeded; simpl.
    + split; [f_equal; exact IH1|]. rewrite IH2.
      split; intros H x Hx; [destruct Hx as [Hx|Hx]; [discriminate|exact (H x Hx)]|
                              exact (H x (or_intror Hx))].
    + split; [exact IH1|]. split; [discriminate|].
      intros H. exfalso. exact (H name (or_introl eq_refl)).
    + split; [exact IH1|]. rewrite IH2.
      split; intros H x Hx; [destruct Hx as [Hx|Hx]; [discriminate|exact (H x Hx)]|
                              exact (H x (or_intror Hx))].
    + split; [exact IH1|]. rewrite IH2.
      split; intros H x Hx; [destruct Hx as [Hx|Hx]; [discriminate|exact (H x Hx)]|
                              exact (H x (or_intror Hx))].
Qed.

(** [populate_stage_modules] reports success exactly when no handler
    returned [incomplete]; then [modules_populated] is the number of
    handlers that returned [success] and no retry is scheduled. *)
Theorem populate_success_when_nothing_incomplete
    (now : Z) (url : string) (stage_id attempt : nat)
    (mods : list (string * option Populate.handler_status)) (schedules : list Populate.Schedule) :
  (forall name, ~ In (name, Some Populate.Incomplete) mods) ->
  Populate.populate_stage_modules now (Some (Some url)) stage_id attempt mods schedules =
  (Populate.PopulateSuccess stage_id (List.length (filter handler_succeeded mods)), schedules).
Proof.
  intros H. unfold Populate.populate_stage_modules.
  destruct (run_handlers_spec mods) as [H1 H2].
  destruct (Populate.run_handlers mods) as [n inc]. simpl in *.
  rewrite (proj2 H2 H), H1. reflexivity.
Qed.

Lemma calculate_scores_total_is_breakdown_sum_witness :
  match Scores.calculate_scores Vocab.demo_results_map Vocab.demo_prediction_key
          Vocab.demo_module with
  | Ok data => forall u t b, In (u, (t, b)) data -> py_sum (map points b) = Ok t
  | Raise _ => False
  end.
Proof.
  destruct (Scores.calculate_scores Vocab.demo_results_map Vocab.demo_prediction_key
              Vocab.demo_module) as [data|e] eqn:E.
  - exact (calculate_scores_total_is_breakdown_sum _ _ _ data E).
  - vm_compute in E. discriminate.
Defined.

Lemma update_scores_keeps_other_rows_witness :
  match Scores.update_scores Vocab.demo_results_map Vocab.demo_prediction_key
          Vocab.demo_module Vocab.demo_table with
  | Ok out =>
      filter (other_scope 3 4) (fst out) = filter (other_scope 3 4) Vocab.demo_table /\
      forall row, In row Vocab.demo_table ->
        exists row', In row' (fst out) /\ row_key row' = row_key row
  | Raise _ => False
  end.
Proof.
  destruct (Scores.update_scores Vocab.demo_results_map Vocab.demo_prediction_key
              Vocab.demo_module Vocab.demo_table) as [[store' n]|e] eqn:E.
  - exact (update_scores_keeps_other_rows _ _ _ _ store' n E).
  - vm_compute in E. discriminate.
Defined.

Lemma save_module_stages_only_advance_witness :
  Forall2 stage_upgrade (Advance.stages Vocab.adv_initial)
    (Advance.stages (Advance.save_module (Vocab.adv_module 1 true true) Vocab.adv_initial)) /\
  exists extra,
    Advance.populate_tasks (Advance.save_module (Vocab.adv_module 1 true true) Vocab.adv_initial) =
    Advance.populate_tasks Vocab.adv_initial ++ extra /\ (List.length extra <= 1)%nat.
Proof.
  apply save_module_stages_only_advance.
  vm_compute. repeat constructor; simpl; intuition discriminate.
Defined.

Lemma populate_success_when_nothing_incomplete_witness :
  Populate.populate_stage_modules 0 (Some (Some "https://www.hltv.org/events/1")) 5 0
    [("swiss", Some Populate.Success); ("bracket", Some Populate.Success); ("other", None)] [] =
  (Populate.PopulateSuccess 5 2, []).
Proof.
  apply (populate_success_when_nothing_incomplete 0 "https://www.hltv.org/events/1" 5 0
           [("swiss", Some Populate.Success); ("bracket", Some Populate.Success); ("other", None)] []).
  intros name [H|[H|[H|[]]]]; discriminate.
Defined.

End ExtraFacts.

Module NeedsFacts.
Import Py Needs.

Lemma set_mem_add : forall x y s, set_mem x (set_add y s) = String.eqb x y || set_mem x s.
Proof.
  intros x y s. unfold set_add, set_mem.
  destruct (existsb (String.eqb y) s) eqn:E.
  - destruct (String.eqb_spec x y) as [->|]; simpl; [|reflexivity]. rewrite E. reflexivity.
  - rewrite existsb_app. simpl. rewrite orb_false_r, orb_comm. reflexivity.
Qed.

Lemma determine_fold_mem :
  forall ts acc x,
    set_mem x (fold_left determine_step ts acc) =
    set_mem x acc ||
    existsb (fun t => (String.eqb x "teams" && match get_population_handler t with
                                              | Some _ => true | None => false end)
                      || (String.eqb x "brackets" && String.eqb t "bracket")
                      || (String.eqb x "players" && String.eqb t "statpredictionsmodule")) ts.
Proof.
  induction ts as [|t ts IH]; intros acc x; simpl; [rewrite orb_false_r; reflexivity|].
  rewrite IH, orb_assoc. f_equal. unfold determine_step, get_population_handler, HANDLERS.
  cbn [lookup].
  destruct (String.eqb_spec t "swissmodule") as [->|H1];
    [rewrite !set_mem_add; generalize (set_mem x acc) as b; simpl; intros b;
     destruct (x =? "teams"), (x =? "brackets"), (x =? "players"), b; reflexivity|].
  destruct (String.eqb_spec t "bracket") as [->|H2];
    [rewrite !set_mem_add; generalize (set_mem x acc) as b; simpl; intros b;
     destruct (x =? "teams"), (x =? "brackets"), (x =? "players"), b; reflexivity|].
  destruct (String.eqb_spec t "statpredictionsmodule") as [->|H3];
    [rewrite !set_mem_add; generalize (set_mem x acc) as b; simpl; intros b;
     destruct (x =? "teams"), (x =? "brackets"), (x =? "players"), b; reflexivity|].
  rewrite !andb_false_r. simpl. rewrite orb_false_r. reflexivity.
Qed.

Lemma existsb_handler :
  forall ts, existsb (fun t => match get_population_handler t with Some _ => true | None => false end) ts = true
    <-> exists t, In t ts /\ get_population_handler t <> None.
Proof.
  intros ts. rewrite existsb_exists. split; intros [t [Hin H]]; exists t; split; auto.
  - destruct (get_population_handler t); [discriminate|discriminate].
  - destruct (get_population_handler t); [reflexivity|contradiction].
Qed.

Lemma existsb_eq :
  forall y ts, existsb (fun t => String.eqb t y) ts = true <-> In y ts.
Proof.
  intros y ts. rewrite existsb_exists. split.
  - intros [t [Hin H]]. apply String.eqb_eq in H. subst. exact Hin.
  - intros Hin. exists y. split; [exact Hin|apply String.eqb_refl].
Qed.

Lemma needs_mem :
  forall ts,
    (set_mem "teams" (determine_data_needs ts) = true <->
       exists t, In t ts /\ get_population_handler t <> None) /\
    (set_mem "brackets" (determine_data_needs ts) = true <-> In "bracket" ts) /\
    (set_mem "players" (determine_data_needs ts) = true <-> In "statpredictionsmodule" ts).
Proof.
  intros ts. unfold determine_data_needs. rewrite !determine_fold_mem. simpl.
  assert (E : forall (f g : string -> bool) l, (forall x, f x = g x) -> existsb f l = existsb g l).
  { intros f g l H. induction l as [|y l IH]; simpl; [reflexivity|]. rewrite H, IH. reflexivity. }
  split; [|split].
  - rewrite <- existsb_handler. erewrite E; [apply iff_refl|]; intros y; simpl; rewrite ?orb_false_r; try reflexivity; apply String.eqb_sym.
  - rewrite <- existsb_eq. erewrite E; [apply iff_refl|]; intros y; simpl; rewrite ?orb_false_r; try reflexivity; apply String.eqb_sym.
  - rewrite <- existsb_eq. erewrite E; [apply iff_refl|]; intros y; simpl; rewrite ?orb_false_r; try reflexivity; apply String.eqb_sym.
Qed.

(** The data a stage parses follows its modules: team and player data
    are parsed exactly when some module has a population handler, and
    bracket data exactly when a [bracket] module is present; a stage
    whose modules have no handler parses nothing. *)
Theorem parsed_data_matches_handlers
    (pta : string -> list (string * value)) (pb : string -> value)
    (html : string) (module_types : list string) :
  let parsed := parse_needed_data pta pb html (determine_data_needs module_types) in
  (has_key "teams" parsed = true <-> exists t, In t module_types /\ get_population_handler t <> None) /\
  (has_key "players" parsed = true <-> exists t, In t module_types /\ get_population_handler t <> None) /\
  (has_key "brackets" parsed = true <-> In "bracket" module_types) /\
  (parsed = [] <-> forall t, In t module_types -> get_population_handler t = None).
Proof.
  cbv zeta. destruct (needs_mem module_types) as [Ht [Hb Hp]].
  assert (Hpt : In "statpredictionsmodule" module_types ->
                exists t, In t module_types /\ get_population_handler t <> None).
  { intros H. exists "statpredictionsmodule". split; [exact H|discriminate]. }
  assert (Hbt : In "bracket" module_types ->
                exists t, In t module_types /\ get_population_handler t <> None).
  { intros H. exists "bracket". split; [exact H|discriminate]. }
  assert (Hteams : (set_mem "teams" (determine_data_needs module_types)
                    || set_mem "players" (determine_data_needs module_types)) =
                   set_mem "teams" (determine_data_needs module_types)).
  { destruct (set_mem "players" _) eqn:E; [|apply orb_false_r].
    rewrite orb_true_r. symmetry. apply Ht, Hpt, Hp. reflexivity. }
  unfold parse_needed_data, has_key. rewrite Hteams.
  destruct (set_mem "teams" (determine_data_needs module_types)) eqn:ET,
           (set_mem "brackets" (determine_data_needs module_types)) eqn:EB; simpl.
  - repeat split; try reflexivity; try (intros; apply Ht; reflexivity);
      try (intros; apply Hb; reflexivity); try discriminate.
    intros H. destruct (proj1 Ht eq_refl) as [t [Hin Hn]]. exfalso. exact (Hn (H t Hin)).
  - repeat split; try reflexivity; try (intros; apply Ht; reflexivity); try discriminate.
    + intros H. apply Hb in H. discriminate.
    + intros H. destruct (proj1 Ht eq_refl) as [t [Hin Hn]]. exfalso. exact (Hn (H t Hin)).
  - exfalso. pose proof (proj2 Ht (Hbt (proj1 Hb eq_refl))). discriminate.
  - split; [split; [discriminate|intros H; apply Ht in H; discriminate]|].
    split; [split; [discriminate|intros H; apply Ht in H; discriminate]|].
    split; [split; [discriminate|intros H; apply Hb in H; discriminate]|].
    split; [intros _ t Hin|reflexivity].
    destruct (get_population_handler t) eqn:E; [|reflexivity].
    exfalso. assert (Hx : false = true)
      by (apply Ht; exists t; split; [exact Hin|rewrite E; discriminate]).
    discriminate.
Qed.

End NeedsFacts.
